(** * The convert / evaluate / improve control loop of agents-in-the-wild

    A shallow embedding of the stored-procedure converter
    ([agents/element/utils.py], [agents/element/base_utils.py]) and of the
    PySpark conversion graph ([agents/sparky/PySparkAgent.py],
    [agents/sparky/ImprovementAgent.py], [agents/sparky/PyConverterAgent.py]).

    The language-model agents are oracles: each is a function of the number
    of agent calls made so far and of the request, and answers with a value
    or with a raised error.  Python objects keep their dynamic shape where
    the code depends on it: a JSON document is a value of [json], a missing
    dictionary key or attribute is an [option], a raised exception is the
    [Raise] outcome.

    What is left out: calls to the logger; the serialization of JSON (a
    metadata file holds a JSON value, [json.load] of what [json.dumps]
    wrote); the files written under the output folders; the graph
    runtime beyond running a node, merging its result into the state and
    following the edge. *)

From Stdlib Require Import List String Ascii Bool Arith ZArith QArith Lia.
Import ListNotations.
Open Scope string_scope.
Open Scope nat_scope.

#[local] Set Warnings "-register-all".

(* ================================================================= *)
(** * Part I: definitions *)
(* ================================================================= *)

(** ** Outcomes of Python computations *)

Inductive exn : Type :=
| AttributeError
| KeyError
| TypeError
| ValueError
| UnboundLocalError
| FileNotFoundError
| ServiceError (msg : string).

(** [Ok]: the call returned; [Raise]: an exception left the call;
    [OutOfFuel]: the bound of the model was reached before either. *)
Inductive res (A : Type) : Type :=
| Ok (a : A)
| Raise (e : exn)
| OutOfFuel.
Arguments Ok {A} a.
Arguments Raise {A} e.
Arguments OutOfFuel {A}.

Definition returned {A} (r : res A) : bool :=
  match r with Ok _ => true | _ => false end.

(** ** Python floats, as far as the code looks at them

    Scores are only compared, never computed with, so a float is a
    rational, an infinity or NaN; every comparison with NaN is false. *)

Inductive pyfloat : Type :=
| Fin (q : Q)
| PInf
| NInf
| NaN.

Definition float_le (x y : pyfloat) : bool :=
  match x, y with
  | NaN, _ | _, NaN => false
  | NInf, _ => true
  | _, PInf => true
  | Fin a, Fin b => Qle_bool a b
  | _, _ => false
  end.

Definition float_lt (x y : pyfloat) : bool :=
  match x, y with
  | NaN, _ | _, NaN => false
  | Fin a, Fin b => negb (Qle_bool b a)
  | NInf, NInf => false
  | NInf, _ => true
  | PInf, _ => false
  | Fin _, PInf => true
  | Fin _, NInf => false
  end.

(** [x >= y] *)
Definition float_ge (x y : pyfloat) : bool := float_le y x.

Definition float_of_Z (z : Z) : pyfloat := Fin (inject_Z z).


(** ** JSON documents and Python dictionaries *)

Inductive json : Type :=
| JNull
| JBool (b : bool)
| JNum (q : Q)
| JStr (s : string)
| JArr (l : list json)
| JObj (d : list (string * json)).

(** A [dict] with string keys, in insertion order. *)
Definition dict (V : Type) : Type := list (string * V).

Fixpoint dict_get {V} (k : string) (d : dict V) : option V :=
  match d with
  | [] => None
  | (k', v) :: r => if String.eqb k k' then Some v else dict_get k r
  end.

(** [d[k] = v]: an existing key keeps its place, a new one goes last. *)
Fixpoint dict_set {V} (k : string) (v : V) (d : dict V) : dict V :=
  match d with
  | [] => [(k, v)]
  | (k', v') :: r =>
      if String.eqb k k' then (k', v) :: r else (k', v') :: dict_set k v r
  end.


(** Truth value of a JSON value in a Python condition. *)
Definition truthy (j : json) : bool :=
  match j with
  | JNull => false
  | JBool b => b
  | JNum q => negb (Qeq_bool q 0)
  | JStr s => negb (String.eqb s "")
  | JArr l => match l with [] => false | _ => true end
  | JObj d => match d with [] => false | _ => true end
  end.

(** Truth value of an optional string argument ([None] and [""] are false). *)
Definition truthy_arg (a : option string) : bool :=
  match a with
  | None => false
  | Some s => negb (String.eqb s "")
  end.

(** ** Strings *)

(** [str.lower] on ASCII letters; other characters are left as they are. *)
Definition lower_ascii (c : ascii) : ascii :=
  let n := nat_of_ascii c in
  if (65 <=? n) && (n <=? 90) then ascii_of_nat (n + 32) else c.

Fixpoint lower (s : string) : string :=
  match s with
  | EmptyString => EmptyString
  | String c r => String (lower_ascii c) (lower r)
  end.

Fixpoint ends_with_rev (suffix_rev s_rev : list ascii) : bool :=
  match suffix_rev, s_rev with
  | [], _ => true
  | _ :: _, [] => false
  | a :: p, b :: q => Ascii.eqb a b && ends_with_rev p q
  end.

(** [s.endswith(suffix)] *)
Definition endswith (s suffix : string) : bool :=
  ends_with_rev (rev (list_ascii_of_string suffix)) (rev (list_ascii_of_string s)).

Definition nl : string := String (ascii_of_nat 10) EmptyString.

(** [sep.join(l)] *)
Definition join (sep : string) (l : list string) : string := String.concat sep l.

(** ** Slices and ranges *)

(** [l[i:j]] for [0 <= i <= j]. *)
Definition slice {T} (l : list T) (i j : nat) : list T := firstn (j - i) (skipn i l).

Fixpoint range_from (fuel start stop step : nat) : list nat :=
  match fuel with
  | O => []
  | S f => if start <? stop then start :: range_from f (start + step) stop step else []
  end.

(** [range(start, stop, step)] for a positive [step]. *)
Definition py_range (start stop step : nat) : list nat :=
  range_from stop start stop step.

(** [ceil(n / b)] *)
Definition ceil_div (n b : nat) : nat := (n + b - 1) / b.

(** The batches [l[0:b], l[b:2b], ...] that a loop over
    [range(0, len(l), b)] cuts. *)
Definition batches {T} (l : list T) (b : nat) : list (list T) :=
  map (fun i => slice l i (i + b)) (py_range 0 (List.length l) b).

(** [chunked] of [agents/element/utils.py]. *)
Definition chunked {T} (items : list T) (chunk_size : nat) : res (list (list T)) :=
  if chunk_size <=? 0 then Raise ValueError
  else Ok (map (fun start_index => slice items start_index (start_index + chunk_size))
               (py_range 0 (List.length items) chunk_size)).

(** ** The dependency store: [find_from_json] of [agents/element/base_utils.py] *)

(** [i.get(key)]: only a dictionary has [get]; an absent key gives [None]. *)
Definition py_get (i : json) (key : option string) : res json :=
  match i with
  | JObj d =>
      match key with
      | Some k => match dict_get k d with Some v => Ok v | None => Ok JNull end
      | None => Ok JNull
      end
  | _ => Raise AttributeError
  end.

(** [x.lower()]: only a string has [lower]. *)
Definition py_lower (x : json) : res string :=
  match x with
  | JStr s => Ok (lower s)
  | _ => Raise AttributeError
  end.

Fixpoint chars (s : string) : list json :=
  match s with
  | EmptyString => []
  | String c r => JStr (String c EmptyString) :: chars r
  end.

(** [for i in data]: the elements of a list, the keys of a dictionary, the
    characters of a string. *)
Definition py_iter (data : json) : res (list json) :=
  match data with
  | JArr l => Ok l
  | JObj d => Ok (map (fun kv => JStr (fst kv)) d)
  | JStr s => Ok (chars s)
  | _ => Raise TypeError
  end.

(** The loop of the key-only path over a list: the first record with a
    true value under [key]. *)
Fixpoint find_by_key (key : option string) (l : list json) : res json :=
  match l with
  | [] => Ok JNull
  | i :: r =>
      match py_get i key with
      | Ok v => if truthy v then Ok i else find_by_key key r
      | Raise e => Raise e
      | OutOfFuel => OutOfFuel
      end
  end.

(** The loop of the named-field path: the first record whose field, in
    lower case, is the searched value in lower case. *)
Fixpoint find_by_value (key : option string) (value : string) (l : list json) : res json :=
  match l with
  | [] => Ok JNull
  | i :: r =>
      match py_get i key with
      | Ok v =>
          match py_lower v with
          | Ok s => if String.eqb s (lower value) then Ok i else find_by_value key value r
          | Raise e => Raise e
          | OutOfFuel => OutOfFuel
          end
      | Raise e => Raise e
      | OutOfFuel => OutOfFuel
      end
  end.

(** [find_from_json] after the file has been read and parsed into [data]. *)
Definition find_in_data (data : json) (key value : option string) : res json :=
  if negb (truthy_arg key) && negb (truthy_arg value) then Ok data
  else if truthy_arg key && negb (truthy_arg value) then
    match data with
    | JObj d => py_get data key
    | JArr l => find_by_key key l
    | _ => Ok JNull
    end
  else
    match py_iter data, value with
    | Ok l, Some v => find_by_value key v l
    | Ok l, None => Ok JNull
    | Raise e, _ => Raise e
    | OutOfFuel, _ => OutOfFuel
    end.

(** ** A state and exception monad

    A computation runs on a state [S] and ends in an outcome; the state
    reached when an exception is raised is kept, as in Python. *)

Definition M (S A : Type) : Type := S -> res A * S.

Definition ret {S A} (a : A) : M S A := fun s => (Ok a, s).

Definition raise {S A} (e : exn) : M S A := fun s => (Raise e, s).

Definition bind {S A B} (c : M S A) (k : A -> M S B) : M S B :=
  fun s =>
    match c s with
    | (Ok a, s') => k a s'
    | (Raise e, s') => (Raise e, s')
    | (OutOfFuel, s') => (OutOfFuel, s')
    end.

Definition get {S} : M S S := fun s => (Ok s, s).

Definition modify {S} (f : S -> S) : M S unit := fun s => (Ok tt, f s).

(** [try: c  except Exception as e: h e] *)
Definition try_except {S A} (c : M S A) (h : exn -> M S A) : M S A :=
  fun s =>
    match c s with
    | (Raise e, s') => h e s'
    | r => r
    end.

(** [d[k]] on a dictionary whose key may be absent. *)
Definition item {S A} (field : option A) : M S A :=
  match field with
  | Some a => ret a
  | None => raise KeyError
  end.

(** [o.attr] on an object that may be [None] or lack the attribute. *)
Definition attr {S A} (field : option A) : M S A :=
  match field with
  | Some a => ret a
  | None => raise AttributeError
  end.

Declare Scope monad_scope.
Delimit Scope monad_scope with monad.
Notation "x <- c ;; k" := (bind c (fun x => k))
  (at level 61, c at next level, right associativity) : monad_scope.
Notation "c ;;; k" := (bind c (fun _ => k))
  (at level 61, right associativity) : monad_scope.
Open Scope monad_scope.

(** What a language-model agent answers to one [invoke]. *)
Inductive reply (A : Type) : Type :=
| Answer (a : A)
| Failure (e : exn).
Arguments Answer {A} a.
Arguments Failure {A} e.

(** The improvements, score and reason of one evaluation
    ([EvaluationOut] of [agents/element/EvaluationAgent.py]; the score
    field is a plain [float], without bounds). *)
Module EvaluationOut.
Record t : Type := Build {
  improvements : list string;
  score : pyfloat;
  reason : string
}.
End EvaluationOut.

(** ** The PySpark conversion graph ([agents/sparky]) *)

Module Sparky.

Record OutFile : Type := { filepath : string; content : string }.

(** The structured output of the conversion and improvement agents. *)
Record OutFiles : Type := { files : list OutFile }.

(** What the state holds under ["converted_files"]: [spark_convert]
    stores the [OutFiles] object the agent returned, [spark_improve]
    stores the list [result.files]. *)
Inductive converted : Type :=
| AsModel (m : OutFiles)
| AsList (l : list OutFile).

(** [PySparkState], a [TypedDict] with [total=False]: any key may be
    absent.  A node's return value is a state with only the keys it
    sets. *)
Record PySparkState : Type := {
  input_code : option (dict string);
  converted_files : option converted;
  converted_code : option string;
  improvements : option (list string);
  score : option pyfloat;
  reason : option string;
  iteration : option Z;
  target_score : option pyfloat;
  max_iters : option Z;
  out_path : option string
}.

Definition no_update : PySparkState :=
  {| input_code := None; converted_files := None; converted_code := None;
     improvements := None; score := None; reason := None; iteration := None;
     target_score := None; max_iters := None; out_path := None |}.

Definition or_else {A} (new old : option A) : option A :=
  match new with Some _ => new | None => old end.

(** The graph writes the keys a node returned over the state. *)
Definition merge (st upd : PySparkState) : PySparkState :=
  {| input_code := or_else (input_code upd) (input_code st);
     converted_files := or_else (converted_files upd) (converted_files st);
     converted_code := or_else (converted_code upd) (converted_code st);
     improvements := or_else (improvements upd) (improvements st);
     score := or_else (score upd) (score st);
     reason := or_else (reason upd) (reason st);
     iteration := or_else (iteration upd) (iteration st);
     target_score := or_else (target_score upd) (target_score st);
     max_iters := or_else (max_iters upd) (max_iters st);
     out_path := or_else (out_path upd) (out_path st) |}.

Inductive node : Type := Nconvert | Nevaluate | Nimprove | Nexport | END.

Inductive event : Type :=
| Enter (n : node)
| InvokeConversion (input : dict string) (answer : reply OutFiles)
| InvokeEvaluation (converted_code : converted) (input : dict string)
    (answer : reply EvaluationOut.t)
| InvokeImprovement (input : dict string) (converted_code : converted)
    (improvements : list string) (answer : reply OutFiles)
| Mkdir (path : string)
| MkdirParent (dir path : string)
| WriteFile (dir path text : string).

(** The three agents; the first argument is the number of agent calls
    made before this one. *)
Record Agents : Type := {
  conversion_agent : nat -> dict string -> reply OutFiles;
  evaluation_agent : nat -> converted -> dict string -> reply EvaluationOut.t;
  spark_improvement_agent :
    nat -> dict string -> converted -> list string -> reply OutFiles
}.

Record World : Type := { clock : nat; trace : list event }.

Definition log (e : event) : M World unit :=
  modify (fun w => {| clock := clock w; trace := trace w ++ [e] |}).

(** One [invoke]: the call is recorded with its answer, the clock
    advances, the agent's failure is raised. *)
Definition invoke {A} (e : reply A -> event) (agent : nat -> reply A) : M World A :=
  fun w =>
    let answer := agent (clock w) in
    let w' := {| clock := S (clock w); trace := trace w ++ [e answer] |} in
    match answer with
    | Answer a => (Ok a, w')
    | Failure x => (Raise x, w')
    end.

Section Nodes.
Variable agents : Agents.

(** [spark_convert] *)
Definition spark_convert (state : PySparkState) : M World PySparkState :=
  input <- item (input_code state) ;;
  out <- invoke (InvokeConversion input)
           (fun t => conversion_agent agents t input) ;;
  ret {| input_code := None; converted_files := Some (AsModel out);
         converted_code := None; improvements := None; score := None;
         reason := None; iteration := None; target_score := None;
         max_iters := None; out_path := None |}.

(** [evaluate].  [agents/sparky/EvaluationAgent.py] is not among the
    sources; the node is the function of that name and state contract
    in [agents/element/EvaluationAgent.py]. *)
Definition evaluate (state : PySparkState) : M World PySparkState :=
  input <- item (input_code state) ;;
  conv <- item (converted_files state) ;;
  result <- invoke (InvokeEvaluation conv input)
              (fun t => evaluation_agent agents t conv input) ;;
  ret {| input_code := None; converted_files := None; converted_code := None;
         improvements := Some (EvaluationOut.improvements result);
         score := Some (EvaluationOut.score result);
         reason := Some (EvaluationOut.reason result);
         iteration := None; target_score := None; max_iters := None;
         out_path := None |}.

(** The [for i in range(0, len(improvements), range_value)] loop of
    [spark_improve]: [converted_files] is the code sent with the next
    batch, [result] the last answer ([None] while unbound). *)
Fixpoint improve_loop (input : dict string) (improvements : list string)
    (range_value : nat) (starts : list nat)
    (converted_files : converted) (result : option OutFiles)
  : M World (option OutFiles) :=
  match starts with
  | [] => ret result
  | i :: rest =>
      let batch := slice improvements i (i + range_value) in
      r <- invoke (InvokeImprovement input converted_files batch)
             (fun t => spark_improvement_agent agents t input converted_files batch) ;;
      improve_loop input improvements range_value rest (AsList (files r)) (Some r)
  end.

(** [spark_improve], with the local constant [range_value] as a
    parameter. *)
Definition spark_improve_with (range_value : nat) (state : PySparkState)
  : M World PySparkState :=
  input <- item (input_code state) ;;
  conv <- item (converted_files state) ;;
  imps <- item (improvements state) ;;
  result <- improve_loop input imps range_value
              (py_range 0 (List.length imps) range_value) conv None ;;
  match result with
  | None => raise UnboundLocalError
  | Some r =>
      it <- item (iteration state) ;;
      ret {| input_code := None; converted_files := Some (AsList (files r));
             converted_code := None; improvements := None; score := None;
             reason := None; iteration := Some (it + 1)%Z;
             target_score := None; max_iters := None; out_path := None |}
  end.

(** [range_value = 7] *)
Definition spark_improve : PySparkState -> M World PySparkState :=
  spark_improve_with 7.

Fixpoint export_files (dir : string) (code : list OutFile) : M World unit :=
  match code with
  | [] => ret tt
  | file :: rest =>
      log (MkdirParent dir (filepath file)) ;;;
      log (WriteFile dir (filepath file) (content file)) ;;;
      export_files dir rest
  end.

(** [spark_export].  Iterating an [OutFiles] object yields its
    (name, value) pairs, and a pair has no [filepath]. *)
Definition spark_export (state : PySparkState) : M World PySparkState :=
  out <- item (out_path state) ;;
  code <- item (converted_files state) ;;
  let output_dir := "../out/" ++ out in
  log (Mkdir output_dir) ;;;
  match code with
  | AsModel _ => raise AttributeError
  | AsList l => export_files output_dir l ;;; ret no_update
  end.

Definition default {A} (d : A) (o : option A) : A :=
  match o with Some a => a | None => d end.

(** [_route_after_evaluate] *)
Definition _route_after_evaluate (state : PySparkState) : string :=
  let target := default (float_of_Z 90) (target_score state) in
  let max_iters := default 3%Z (max_iters state) in
  let score := default (float_of_Z 0) (score state) in
  let iteration := default 0%Z (iteration state) in
  if float_ge score target then "export"
  else if (iteration >=? max_iters)%Z then "export"
  else "improve".

(** The body of a node. *)
Definition run_node (n : node) (state : PySparkState) : M World PySparkState :=
  match n with
  | Nconvert => spark_convert state
  | Nevaluate => evaluate state
  | Nimprove => spark_improve state
  | Nexport => spark_export state
  | END => ret no_update
  end.

(** The edges: [convert -> evaluate], the conditional edges out of
    [evaluate] through the mapping [{"improve": "improve", "export":
    "export"}], [improve -> evaluate], [export -> END]. *)
Definition next_node (n : node) (state : PySparkState) : M World node :=
  match n with
  | Nconvert => ret Nevaluate
  | Nevaluate =>
      item (dict_get (_route_after_evaluate state)
              [("improve", Nimprove); ("export", Nexport)])
  | Nimprove => ret Nevaluate
  | Nexport => ret END
  | END => ret END
  end.

(** One step of the graph: run the node, merge what it returned,
    follow the edge. *)
Definition step (n : node) (state : PySparkState) : M World (node * PySparkState) :=
  log (Enter n) ;;;
  upd <- run_node n state ;;
  let state' := merge state upd in
  n' <- next_node n state' ;;
  ret (n', state').

Fixpoint run_from (fuel : nat) (n : node) (state : PySparkState)
  : M World PySparkState :=
  match n with
  | END => ret state
  | _ =>
      match fuel with
      | O => fun w => (OutOfFuel, w)
      | S f =>
          ns <- step n state ;;
          run_from f (fst ns) (snd ns)
      end
  end.

(** [pyspark_graph.invoke(initial_state)]: the entry point is
    [convert]. *)
Definition pyspark_graph_invoke (fuel : nat) (initial_state : PySparkState)
  : M World PySparkState :=
  run_from fuel Nconvert initial_state.

(** The [initial_state] that [run_pyspark_conversion] builds for the
    file [f] with text [text]. *)
Definition initial_state (outpath f text : string) (target_score : pyfloat)
    (max_iters : Z) : PySparkState :=
  {| input_code := Some [(f, text)]; converted_files := None;
     converted_code := None; improvements := None; score := None;
     reason := None; iteration := Some 0%Z;
     target_score := Some target_score; max_iters := Some max_iters;
     out_path := Some (outpath ++ "/" ++ f) |}.

End Nodes.

(** The answer of the first evaluation recorded in a trace. *)
Fixpoint first_evaluation (tr : list event) : option (reply EvaluationOut.t) :=
  match tr with
  | [] => None
  | InvokeEvaluation _ _ a :: _ => Some a
  | _ :: r => first_evaluation r
  end.

Definition empty_world : World := {| clock := 0; trace := [] |}.

(** The events recorded between the worlds [w] and [w']. *)
Definition new_events (w w' : World) : list event :=
  skipn (List.length (trace w)) (trace w').

(** The number of improve rounds a state still allows: [max_iters] minus
    [iteration], with the defaults of [_route_after_evaluate]. *)
Definition rounds_left (st : PySparkState) : nat :=
  Z.to_nat (default 3%Z (max_iters st) - default 0%Z (iteration st)).

(** How many evaluations a run that is about to enter node [n] in state
    [st] can still make, and how many steps it takes at most. *)
Definition evaluations_bound (n : node) (st : PySparkState) : nat :=
  match n with
  | Nconvert | Nevaluate => rounds_left st + 1
  | Nimprove => Nat.pred (rounds_left st) + 1
  | Nexport | END => 0
  end.

Definition steps_bound (n : node) (st : PySparkState) : nat :=
  match n with
  | Nconvert => 2 * rounds_left st + 3
  | Nevaluate => 2 * rounds_left st + 2
  | Nimprove => 2 * Nat.pred (rounds_left st) + 3
  | Nexport => 1
  | END => 0
  end.

Definition exports_due (n : node) : nat :=
  match n with END => 0 | _ => 1 end.

(** The events of a node body that is neither an evaluation nor an
    improvement. *)
Definition plain (e : event) : bool :=
  match e with
  | Enter _ | InvokeEvaluation _ _ _ | InvokeImprovement _ _ _ _ => false
  | _ => true
  end.

(** The answer to the last call of the improvement agent in a trace. *)
Fixpoint last_improvement (tr : list event) (acc : option (reply OutFiles))
  : option (reply OutFiles) :=
  match tr with
  | [] => acc
  | InvokeImprovement _ _ _ a :: r => last_improvement r (Some a)
  | _ :: r => last_improvement r acc
  end.

Definition is_enter (n : node) (e : event) : bool :=
  match e, n with
  | Enter Nconvert, Nconvert => true
  | Enter Nevaluate, Nevaluate => true
  | Enter Nimprove, Nimprove => true
  | Enter Nexport, Nexport => true
  | Enter END, END => true
  | _, _ => false
  end.

Definition is_improvement_call (e : event) : bool :=
  match e with InvokeImprovement _ _ _ _ => true | _ => false end.

(** How many times a phase was executed in a trace. *)
Definition executions (n : node) (tr : list event) : nat :=
  List.length (filter (is_enter n) tr).

(** The batches sent to the improvement agent, in order. *)
Fixpoint improvement_batches (tr : list event) : list (list string) :=
  match tr with
  | [] => []
  | InvokeImprovement _ _ b _ :: r => b :: improvement_batches r
  | _ :: r => improvement_batches r
  end.

End Sparky.

(** ** The stored-procedure converter ([agents/element]) *)

(** [IdentifyOut] of [agents/element/IdentificationAgent.py]. *)
Module IdentifyOut.
Record t : Type := Build {
  entities : list string;
  functions : list string;
  triggers : list string;
  internal_stored_procedures : list string
}.
End IdentifyOut.

Module Element.

(** [self.sp]: the name and the text of the stored procedure. *)
Record StoredProcedure : Type := { sp_name : string; sp_content : string }.

(** The request [convert_sp] sends. *)
Record ConversionRequest : Type := {
  cq_stored_procedure : string;
  cq_entities : json;
  cq_functions : json;
  cq_triggers : json;
  cq_sample : string;
  cq_internal_stored_procedures : list string
}.

(** The request [convert_sp_v2] sends. *)
Record ImprovementRequest : Type := {
  rq_stored_procedure : string;
  rq_code : json;
  rq_sample : string;
  rq_improvements : string;
  rq_internal_stored_procedures : list string
}.

(** What [evaluate_sp] returns: the agent's answer, or the text ["{}"]
    after a caught error. *)
Inductive evaluation_value : Type :=
| EvalOut (e : EvaluationOut.t)
| EvalText (s : string).

(** The calls a run makes, in order.  The events of a child conversion
    are kept together under [Child]. *)
Inductive event : Type :=
| Identify (stored_procedure : string) (answer : reply IdentifyOut.t)
| Convert (target_framework : option string) (request : ConversionRequest)
    (answer : reply string)
| Evaluate (input_code : string) (converted_code : json)
    (answer : reply EvaluationOut.t)
| Improve (request : ImprovementRequest) (answer : reply string)
| Find (filename : string) (key value : option string)
| ExportCode (name : string) (code : json) (evaluation : option evaluation_value)
| SaveCode (name : string) (code : json)
| Package (name : string)
| Child (name : string) (events : list event).

(** The collaborators of the converter that the sources do not define:
    the agents (the first argument is the number of agent calls made
    before this one), the stored-procedure sources as [read_sql_file]
    returns them, the sample code, the JSON parser behind
    [json_to_dict], and [str] of a JSON value that is not a string. *)
Record Env : Type := {
  identification_agent : nat -> string -> reply IdentifyOut.t;
  conversion_agent : nat -> option string -> ConversionRequest -> reply string;
  evaluation_agent : nat -> string -> json -> reply EvaluationOut.t;
  sp_improvement_agent : nat -> ImprovementRequest -> reply string;
  read_sql_file : string -> string;
  sample_code : string;
  json_loads : string -> option json;
  py_repr : json -> string
}.

(** The JSON files under [../metadata], by path; an absent path is a
    file that does not exist. *)
Record World : Type := { clock : nat; trace : list event; files : dict json }.

Definition stored_procedure_json : string := "../metadata/stored_procedure.json".
Definition entities_json : string := "../metadata/entities.json".
Definition functions_json : string := "../metadata/functions.json".
Definition triggers_json : string := "../metadata/triggers.json".

Definition log (e : event) : M World unit :=
  modify (fun w => {| clock := clock w; trace := trace w ++ [e]; files := files w |}).

Definition invoke {A} (e : reply A -> event) (agent : nat -> reply A) : M World A :=
  fun w =>
    let answer := agent (clock w) in
    let w' := {| clock := S (clock w); trace := trace w ++ [e answer];
                 files := files w |} in
    match answer with
    | Answer a => (Ok a, w')
    | Failure x => (Raise x, w')
    end.

Definition lift {A} (r : res A) : M World A := fun w => (r, w).

Definition out_of_fuel {A} : M World A := fun w => (OutOfFuel, w).

(** A child conversion runs on the same clock and files; its events are
    recorded as one [Child] event of the caller. *)
Definition nested {A} (name : string) (c : M World A) : M World A :=
  fun w =>
    let rw := c {| clock := clock w; trace := []; files := files w |} in
    (fst rw,
     {| clock := clock (snd rw);
        trace := trace w ++ [Child name (trace (snd rw))];
        files := files (snd rw) |}).

(** [find_from_json]: the file is read whole, then searched. *)
Definition find_from_json (filename : string) (key value : option string)
  : M World json :=
  log (Find filename key value) ;;;
  w <- get ;;
  match dict_get filename (files w) with
  | None => raise FileNotFoundError
  | Some data => lift (find_in_data data key value)
  end.

(** [d[k]] on a JSON value. *)
Definition py_subscript (j : json) (k : string) : res json :=
  match j with
  | JObj d => match dict_get k d with Some v => Ok v | None => Raise KeyError end
  | _ => Raise TypeError
  end.

(** The object: the attributes of [SPConverter].  [dependancies],
    [stored_procedures] and [evaluation] are attributes that
    [__init__] does not create. *)
Record SPConverter : Type := {
  name : string;
  sp : StoredProcedure;
  code : json;
  sample : string;
  entities : json;
  functions : json;
  triggers : json;
  dependancies : option IdentifyOut.t;
  stored_procedures : option string;
  recursion : bool;
  iterations : Z;
  evaluation : option evaluation_value
}.

Definition set_code (self : SPConverter) (c : json) : SPConverter :=
  {| name := name self; sp := sp self; code := c; sample := sample self;
     entities := entities self; functions := functions self;
     triggers := triggers self; dependancies := dependancies self;
     stored_procedures := stored_procedures self; recursion := recursion self;
     iterations := iterations self; evaluation := evaluation self |}.

Definition set_evaluation (self : SPConverter) (v : evaluation_value) : SPConverter :=
  {| name := name self; sp := sp self; code := code self; sample := sample self;
     entities := entities self; functions := functions self;
     triggers := triggers self; dependancies := dependancies self;
     stored_procedures := stored_procedures self; recursion := recursion self;
     iterations := iterations self; evaluation := Some v |}.

Definition set_dependancies (self : SPConverter) (d : option IdentifyOut.t)
  : SPConverter :=
  {| name := name self; sp := sp self; code := code self; sample := sample self;
     entities := entities self; functions := functions self;
     triggers := triggers self; dependancies := d;
     stored_procedures := stored_procedures self; recursion := recursion self;
     iterations := iterations self; evaluation := evaluation self |}.

Definition set_resolved (self : SPConverter) (e f t : string) : SPConverter :=
  {| name := name self; sp := sp self; code := code self; sample := sample self;
     entities := JStr e; functions := JStr f; triggers := JStr t;
     dependancies := dependancies self;
     stored_procedures := stored_procedures self; recursion := recursion self;
     iterations := iterations self; evaluation := evaluation self |}.

Definition set_stored_procedures (self : SPConverter) (s : string) : SPConverter :=
  {| name := name self; sp := sp self; code := code self; sample := sample self;
     entities := entities self; functions := functions self;
     triggers := triggers self; dependancies := dependancies self;
     stored_procedures := Some s; recursion := recursion self;
     iterations := iterations self; evaluation := evaluation self |}.

(** The dictionary [convert_sp_v2] passes to the improvement agent. *)
Definition improvement_request (imp : string) (self : SPConverter)
    (deps : IdentifyOut.t) : ImprovementRequest :=
  {| rq_stored_procedure := sp_content (sp self);
     rq_code := code self; rq_sample := sample self;
     rq_improvements := imp;
     rq_internal_stored_procedures := IdentifyOut.internal_stored_procedures deps |}.

(** The canonical name of a procedure: it ends in [.sql]. *)
Definition normalize (sp : string) : string :=
  if negb (endswith sp ".sql") then sp ++ ".sql" else sp.

Section Converter.
Variable env : Env.

(** [str(x)] inside an f-string. *)
Definition py_str (j : json) : string :=
  match j with
  | JStr s => s
  | _ => py_repr env j
  end.

(** [SPConverter.__init__] with [read_sp] and [get_sample_code]; the
    output folder it creates is not part of the model. *)
Definition init (name : string) (recursion : bool) (iterations : Z) : SPConverter :=
  let name := normalize name in
  {| name := name;
     sp := {| sp_name := name;
              sp_content := read_sql_file env ("../source/StoredProcedure/" ++ name) |};
     code := JArr [];
     sample := sample_code env;
     entities := JArr []; functions := JArr []; triggers := JArr [];
     dependancies := None; stored_procedures := None;
     recursion := recursion; iterations := iterations; evaluation := None |}.

(** [json_to_dict]: the parsed answer, or [{}] when parsing fails. *)
Definition json_to_dict (json_data : string) : json :=
  match json_loads env json_data with
  | Some j => j
  | None => JObj []
  end.

(** [identify_dependancies]: [None] after a caught error. *)
Definition identify_dependancies (self : SPConverter) : M World (option IdentifyOut.t) :=
  try_except
    (response <- invoke (Identify (sp_content (sp self)))
                   (fun t => identification_agent env t (sp_content (sp self))) ;;
     ret (Some response))
    (fun _ => ret None).

(** One of the three loops over entities, functions and triggers. *)
Fixpoint gather (filename name_field text_field : string) (ids : list string)
    (acc : string) : M World string :=
  match ids with
  | [] => ret acc
  | e :: rest =>
      entity <- find_from_json filename (Some name_field) (Some (e ++ ".java")) ;;
      if truthy entity then
        n <- lift (py_subscript entity name_field) ;;
        t <- lift (py_subscript entity text_field) ;;
        gather filename name_field text_field rest
          (acc ++ py_str n ++ nl ++ py_str t ++ nl ++ nl)
      else gather filename name_field text_field rest acc
  end.

(** The loop over the internal stored procedures: a hit adds the
    stored code to the text, a miss runs the child conversion. *)
Fixpoint resolve_procedures (child : string -> M World unit) (ids : list string)
    (stored_procedures : string) : M World string :=
  match ids with
  | [] => ret stored_procedures
  | sp :: rest =>
      let sp := normalize sp in
      sps <- find_from_json stored_procedure_json (Some sp) None ;;
      if truthy sps then
        resolve_procedures child rest
          (stored_procedures ++ sp ++ nl ++ py_str sps ++ nl ++ nl)
      else
        nested sp (child sp) ;;;
        resolve_procedures child rest stored_procedures
  end.

(** [prepare_dependencies]; [child sp] stands for
    [SPConverter(sp, recursion, iterations).run()]. *)
Definition prepare_dependencies (child : string -> M World unit)
    (self : SPConverter) : M World SPConverter :=
  d <- identify_dependancies self ;;
  let self := set_dependancies self d in
  deps <- attr d ;;
  e <- gather entities_json "entity_name" "entity" (IdentifyOut.entities deps) "" ;;
  f <- gather functions_json "java_function_name" "java_function"
         (IdentifyOut.functions deps) "" ;;
  t <- gather triggers_json "java_function_name" "java_function"
         (IdentifyOut.triggers deps) "" ;;
  let self := set_resolved self e f t in
  if recursion self then
    s <- resolve_procedures child (IdentifyOut.internal_stored_procedures deps) "" ;;
    ret (set_stored_procedures self s)
  else ret self.

(** [convert_sp]: after a caught error the code is left as it was. *)
Definition convert_sp (target_framework : option string) (self : SPConverter)
  : M World SPConverter :=
  try_except
    (deps <- attr (dependancies self) ;;
     let request :=
       {| cq_stored_procedure := sp_content (sp self);
          cq_entities := entities self; cq_functions := functions self;
          cq_triggers := triggers self; cq_sample := sample self;
          cq_internal_stored_procedures :=
            IdentifyOut.internal_stored_procedures deps |} in
     response <- invoke (Convert target_framework request)
                   (fun t => conversion_agent env t target_framework request) ;;
     ret (set_code self (json_to_dict response)))
    (fun _ => ret self).

(** One attempt of [convert_sp_v2]: the body of its [try]. *)
Definition improve_once (imp : string) (self : SPConverter) : M World SPConverter :=
  deps <- attr (dependancies self) ;;
  let request := improvement_request imp self deps in
  response <- invoke (Improve request)
                (fun t => sp_improvement_agent env t request) ;;
  ret (set_code self (json_to_dict response)).

(** [convert_sp_v2]: a caught error calls the method again with the
    same [imp]; [fuel] bounds the depth of that recursion. *)
Fixpoint convert_sp_v2 (fuel : nat) (imp : string) (self : SPConverter)
  : M World SPConverter :=
  match fuel with
  | O => out_of_fuel
  | S f =>
      try_except (improve_once imp self)
        (fun _ => convert_sp_v2 f imp self)
  end.

(** [evaluate_sp] *)
Definition evaluate_sp (self : SPConverter) : M World evaluation_value :=
  try_except
    (response <- invoke (Evaluate (sp_content (sp self)) (code self))
                   (fun t => evaluation_agent env t (sp_content (sp self)) (code self)) ;;
     ret (EvalOut response))
    (fun _ => ret (EvalText "{}")).

(** [self.evaluation.score] and the like: a string has no such
    attribute. *)
Definition evaluation_out (self : SPConverter) : M World EvaluationOut.t :=
  v <- attr (evaluation self) ;;
  match v with
  | EvalOut e => ret e
  | EvalText _ => raise AttributeError
  end.

(** [runV1]; the three log lines read the attributes of the
    evaluation. *)
Definition runV1 (self : SPConverter) : M World SPConverter :=
  self <- convert_sp (Some "flask") self ;;
  score <- evaluate_sp self ;;
  let self := set_evaluation self score in
  evaluation_out self ;;;
  ret self.

(** The loop of [runV2] over the groups of improvements. *)
Fixpoint apply_groups (fuel : nat) (groups : list (list string))
    (self : SPConverter) : M World SPConverter :=
  match groups with
  | [] => ret self
  | group :: rest =>
      let imp := join (nl ++ "- ") group in
      self <- convert_sp_v2 fuel imp self ;;
      apply_groups fuel rest self
  end.

(** [runV2] *)
Definition runV2 (fuel : nat) (self : SPConverter) : M World SPConverter :=
  e <- evaluation_out self ;;
  groups <- lift (chunked (EvaluationOut.improvements e) 2) ;;
  self <- apply_groups fuel groups self ;;
  score <- evaluate_sp self ;;
  let self := set_evaluation self score in
  evaluation_out self ;;;
  ret self.

(** [for i in range(self.iterations)] of [run]. *)
Fixpoint iterate (fuel : nat) (n : nat) (self : SPConverter) : M World SPConverter :=
  match n with
  | O => ret self
  | S n' =>
      e <- evaluation_out self ;;
      self <- (if float_lt (EvaluationOut.score e) (float_of_Z 90)
               then runV2 fuel self else ret self) ;;
      iterate fuel n' self
  end.

(** [export_code]: its body is inside [try]/[except] and only writes
    under the output folder, so it is one event and always returns. *)
Definition export_code (self : SPConverter) : M World unit :=
  log (ExportCode (name self) (code self) (evaluation self)).

(** [save_code] *)
Definition save_code (self : SPConverter) : M World unit :=
  log (SaveCode (name self) (code self)) ;;;
  w <- get ;;
  match dict_get stored_procedure_json (files w) with
  | None =>
      modify (fun w => {| clock := clock w; trace := trace w;
                          files := dict_set stored_procedure_json
                                     (JObj [(name self, code self)]) (files w) |})
  | Some (JObj data) =>
      modify (fun w => {| clock := clock w; trace := trace w;
                          files := dict_set stored_procedure_json
                                     (JObj (dict_set (name self) (code self) data))
                                     (files w) |})
  | Some _ => raise TypeError
  end.

(** The rest of [run]: arranging the project, the POM and the
    container build are calls to external tools, one event here. *)
Definition package (self : SPConverter) : M World unit :=
  log (Package (name self)).

(** [run]; [fuel] bounds the nesting of child conversions and the
    depth of each retry recursion. *)
Fixpoint run (fuel : nat) (self : SPConverter) : M World SPConverter :=
  match fuel with
  | O => out_of_fuel
  | S f =>
      self <- prepare_dependencies
                (fun sp =>
                   run f (init sp (recursion self) (iterations self)) ;;; ret tt)
                self ;;
      self <- runV1 self ;;
      self <- iterate f (Z.to_nat (iterations self)) self ;;
      export_code self ;;;
      save_code self ;;;
      package self ;;;
      ret self
  end.

End Converter.

Definition is_evaluate (e : event) : bool :=
  match e with Evaluate _ _ _ => true | _ => false end.

Definition is_improve (e : event) : bool :=
  match e with Improve _ _ => true | _ => false end.

Definition is_export (e : event) : bool :=
  match e with ExportCode _ _ _ => true | _ => false end.


(** The events recorded between the worlds [w] and [w']. *)
Definition new_events (w w' : World) : list event :=
  skipn (List.length (trace w)) (trace w').

(** What the loop of a run leaves as it is in the object. *)
Definition same_run (self self' : SPConverter) : Prop :=
  dependancies self' = dependancies self /\
  iterations self' = iterations self /\
  name self' = name self.

(** The catalogue binds the unit's name to its code. *)
Definition persisted (self : SPConverter) (w : World) : Prop :=
  exists catalogue,
    dict_get stored_procedure_json (files w) = Some (JObj catalogue) /\
    dict_get (name self) catalogue = Some (code self).

(** An improvement agent that answers every request. *)
Definition always_answers (env : Env) : Prop :=
  forall t q, exists a, sp_improvement_agent env t q = Answer a.

(** The events of dependency preparation. *)
Definition preparing (e : event) : bool :=
  match e with
  | Identify _ _ | Find _ _ _ | Child _ _ => true
  | _ => false
  end.

(** How many events of a kind a run made itself (the events of its
    children are inside [Child]). *)
Definition count (p : event -> bool) (tr : list event) : nat :=
  List.length (filter p tr).

(** The answer of the first evaluation of a run. *)
Fixpoint first_evaluation (tr : list event) : option (reply EvaluationOut.t) :=
  match tr with
  | [] => None
  | Evaluate _ _ a :: _ => Some a
  | _ :: r => first_evaluation r
  end.

(** The answer to the last call of the improvement agent in a trace. *)
Fixpoint last_improvement (tr : list event) (acc : option (reply string))
  : option (reply string) :=
  match tr with
  | [] => acc
  | Improve _ a :: r => last_improvement r (Some a)
  | _ :: r => last_improvement r acc
  end.

(** The code sent with each evaluation, in order. *)
Fixpoint evaluated_code (tr : list event) : list json :=
  match tr with
  | [] => []
  | Evaluate _ c _ :: r => c :: evaluated_code r
  | _ :: r => evaluated_code r
  end.


End Element.

(** ** Concrete inputs *)

Module Demo.

Definition one_file : Sparky.OutFiles :=
  {| Sparky.files := [{| Sparky.filepath := "job.py"; Sparky.content := "spark" |}] |}.

(** Agents that always answer: every evaluation gives [score] and the
    suggestions [imps]. *)
Definition steady (score : Z) (imps : list string) : Sparky.Agents :=
  {| Sparky.conversion_agent := fun _ _ => Answer one_file;
     Sparky.evaluation_agent := fun _ _ _ =>
       Answer (EvaluationOut.Build imps (float_of_Z score) "reason");
     Sparky.spark_improvement_agent := fun _ _ _ _ => Answer one_file |}.


Definition suggestions (n : nat) : list string :=
  map (fun i => String (ascii_of_nat (97 + i)) EmptyString) (seq 0 n).

(** The state at the improve node after a first evaluation that gave
    the suggestions [imps]. *)
Definition at_improve (imps : list string) : Sparky.PySparkState :=
  {| Sparky.input_code := Some [("job.sql", "select 1")];
     Sparky.converted_files := Some (Sparky.AsModel one_file);
     Sparky.converted_code := None;
     Sparky.improvements := Some imps;
     Sparky.score := Some (float_of_Z 50);
     Sparky.reason := Some "reason";
     Sparky.iteration := Some 0%Z;
     Sparky.target_score := Some (float_of_Z 90);
     Sparky.max_iters := Some 2%Z;
     Sparky.out_path := Some "jobs/job.sql" |}.

Definition start (max_iters : Z) : Sparky.PySparkState :=
  Sparky.initial_state "jobs" "job.sql" "select 1" (float_of_Z 90) max_iters.


(** A dependency store with two entities and one converted procedure. *)
Definition orders : json :=
  JObj [("entity_name", JStr "Orders.java"); ("entity", JStr "class Orders {}")].

Definition store : Element.World :=
  {| Element.clock := 0;
     Element.trace := [];
     Element.files :=
       [(Element.entities_json,
         JArr [JObj [("entity_name", JStr "Customers.java");
                     ("entity", JStr "class Customers {}")];
               orders]);
        (Element.stored_procedure_json,
         JObj [("GetOrderTotal.sql",
                JObj [("OrderTotalService.java", JStr "class OrderTotalService {}")])])] |}.

(** An environment for the stored-procedure converter: the procedure
    with text ["PARENT"] calls the internal procedure [Child]; the
    evaluation made at clock [t] gives the score [scores t] and three
    suggestions; the improvement agent fails at the clocks [busy]. *)
Definition env (scores : nat -> Z) (busy : nat -> bool) : Element.Env :=
  {| Element.identification_agent := fun _ text =>
       Answer (IdentifyOut.Build [] [] []
                 (if String.eqb text "PARENT" then ["Child"] else []));
     Element.conversion_agent := fun _ _ q => Answer (Element.cq_stored_procedure q);
     Element.evaluation_agent := fun t _ _ =>
       Answer (EvaluationOut.Build ["a"; "b"; "c"] (float_of_Z (scores t)) "reason");
     Element.sp_improvement_agent := fun t q =>
       if busy t then Failure (ServiceError "busy")
       else Answer (Element.rq_improvements q);
     Element.read_sql_file := fun path =>
       if String.eqb path "../source/StoredProcedure/Parent.sql" then "PARENT"
       else "CHILD";
     Element.sample_code := "";
     Element.json_loads := fun text => Some (JObj [("Main.java", JStr text)]);
     Element.py_repr := fun _ => "{...}" |}.

Definition always (z : Z) : nat -> Z := fun _ => z.

Definition never : nat -> bool := fun _ => false.

(** A world whose procedure catalogue is the empty object. *)
Definition fresh : Element.World :=
  {| Element.clock := 0; Element.trace := [];
     Element.files := [(Element.stored_procedure_json, JObj [])] |}.

(** The converter of [Parent.sql] after dependency identification. *)
Definition parent (e : Element.Env) : Element.SPConverter :=
  Element.set_dependancies (Element.init e "Parent" false 2)
    (Some (IdentifyOut.Build [] [] [] [])).






End Demo.

(** ** Further concrete inputs *)

Module Scenario.

(** An environment whose agents answer or fail as the three flags say;
    the identification agent finds no dependency, the evaluation gives
    [score] and two suggestions. *)
Definition env (identifies converts evaluates : bool) (score : Z) : Element.Env :=
  {| Element.identification_agent := fun _ _ =>
       if identifies then Answer (IdentifyOut.Build [] [] [] [])
       else Failure (ServiceError "identification");
     Element.conversion_agent := fun _ _ q =>
       if converts then Answer (Element.cq_stored_procedure q)
       else Failure (ServiceError "conversion");
     Element.evaluation_agent := fun _ _ _ =>
       if evaluates then Answer (EvaluationOut.Build ["a"; "b"] (float_of_Z score) "reason")
       else Failure (ServiceError "evaluation");
     Element.sp_improvement_agent := fun _ q => Answer (Element.rq_improvements q);
     Element.read_sql_file := fun _ => "SELECT 1";
     Element.sample_code := "";
     Element.json_loads := fun text => Some (JObj [("Main.java", JStr text)]);
     Element.py_repr := fun _ => "{...}" |}.


End Scenario.

(** ** Kinds of events in a run of the stored-procedure converter *)

Module Events.

(** The calls of the convert / evaluate / improve loop. *)
Definition working (e : Element.event) : bool :=
  match e with
  | Element.Convert _ _ _ | Element.Evaluate _ _ _ | Element.Improve _ _ => true
  | _ => false
  end.

(** The steps after the loop. *)
Definition closing (e : Element.event) : bool :=
  match e with
  | Element.ExportCode _ _ _ | Element.SaveCode _ _ | Element.Package _ => true
  | _ => false
  end.

Definition is_save (e : Element.event) : bool :=
  match e with Element.SaveCode _ _ => true | _ => false end.

Definition is_convert (e : Element.event) : bool :=
  match e with Element.Convert _ _ _ => true | _ => false end.

(** The code and the answer of the last evaluation in a trace. *)
Fixpoint last_evaluation (tr : list Element.event)
    (acc : option (json * reply EvaluationOut.t))
  : option (json * reply EvaluationOut.t) :=
  match tr with
  | [] => acc
  | Element.Evaluate _ c a :: r => last_evaluation r (Some (c, a))
  | _ :: r => last_evaluation r acc
  end.

End Events.

(** ** The calls of one improve round of the PySpark graph *)

Module Round.

(** The calls of a round form a chain: every call is an improvement
    call for the same input code, the first is sent the code [c], each
    later one the files the call before it answered with, and a failed
    call is the last. *)
Fixpoint chained (input : dict string) (c : Sparky.converted)
    (tr : list Sparky.event) : Prop :=
  match tr with
  | [] => True
  | Sparky.InvokeImprovement i c' _ a :: r =>
      i = input /\ c' = c /\
      match a with
      | Answer o => chained input (Sparky.AsList (Sparky.files o)) r
      | Failure _ => r = []
      end
  | _ :: _ => False
  end.

End Round.

(* ================================================================= *)
(** * Part II: properties *)
(* ================================================================= *)

Open Scope list_scope.

(** ** Floats and dictionaries *)

Lemma float_ge_not_lt (x y : pyfloat) : float_ge x y = true -> float_lt x y = false.
Proof.
  unfold float_ge, float_le, float_lt.
  destruct x, y; try reflexivity; try discriminate.
  intros H. rewrite H. reflexivity.
Qed.

Lemma dict_get_set_same {V} (k : string) (v : V) (d : dict V) :
  dict_get k (dict_set k v d) = Some v.
Proof.
  induction d as [|[k' v'] r IH]; simpl.
  - rewrite String.eqb_refl. reflexivity.
  - destruct (String.eqb k k') eqn:E; simpl; rewrite E; [reflexivity | exact IH].
Qed.

Lemma dict_get_set_other {V} (k k0 : string) (v : V) (d : dict V) :
  k0 <> k -> dict_get k0 (dict_set k v d) = dict_get k0 d.
Proof.
  intros Hne. induction d as [|[k' v'] r IH]; simpl.
  - destruct (String.eqb k0 k) eqn:E; [apply String.eqb_eq in E; contradiction | reflexivity].
  - destruct (String.eqb k k') eqn:E; simpl.
    + apply String.eqb_eq in E. subst k'.
      destruct (String.eqb k0 k) eqn:E0; [apply String.eqb_eq in E0; contradiction | reflexivity].
    + rewrite IH. reflexivity.
Qed.


Lemma dict_get_in {V} (k : string) (v : V) (d : dict V) :
  dict_get k d = Some v -> In (k, v) d.
Proof.
  induction d as [|[k' v'] r IH]; simpl; intros H; [discriminate|].
  destruct (String.eqb k k') eqn:E.
  - apply String.eqb_eq in E. inversion H. subst. left. reflexivity.
  - right. apply IH. exact H.
Qed.

(** ** Ranges, slices and chunks *)

Lemma ceil_div_zero (b : nat) : 0 < b -> ceil_div 0 b = 0.
Proof. intros Hb. unfold ceil_div. apply Nat.div_small. lia. Qed.

Lemma ceil_div_step (n b : nat) : 0 < b -> 0 < n -> ceil_div n b = S (ceil_div (n - b) b).
Proof.
  intros Hb Hn. unfold ceil_div.
  destruct (Nat.le_gt_cases b n) as [Hle|Hlt].
  - replace (n + b - 1) with ((n - b + b - 1) + 1 * b) by lia.
    rewrite Nat.div_add by lia. lia.
  - replace (n - b) with 0 by lia. simpl.
    rewrite (Nat.div_small (b - 1) b) by lia.
    symmetry. apply Nat.div_unique with (r := n - 1); lia.
Qed.

Lemma ceil_div_bounds (n b : nat) :
  0 < b -> 0 < n -> (ceil_div n b - 1) * b < n /\ n <= ceil_div n b * b.
Proof.
  intros Hb Hn. unfold ceil_div.
  pose proof (Nat.div_mod_eq (n + b - 1) b) as E.
  pose proof (Nat.mod_upper_bound (n + b - 1) b ltac:(lia)) as U.
  set (q := (n + b - 1) / b) in *. set (m := (n + b - 1) mod b) in *.
  assert (1 <= q) by (destruct q; [simpl in E; lia | lia]).
  split; nia.
Qed.

Lemma range_from_spec (fuel start stop step : nat) :
  0 < step -> stop <= start + fuel ->
  range_from fuel start stop step
  = map (fun i => start + i * step) (seq 0 (ceil_div (stop - start) step)).
Proof.
  intros Hs. revert start.
  induction fuel as [|f IH]; intros start Hf; simpl.
  - replace (stop - start) with 0 by lia. rewrite ceil_div_zero by lia. reflexivity.
  - destruct (start <? stop) eqn:E.
    + apply Nat.ltb_lt in E.
      rewrite (ceil_div_step (stop - start) step) by lia.
      rewrite IH by lia. simpl. rewrite <- seq_shift, map_map.
      f_equal; [lia|].
      replace (stop - start - step) with (stop - (start + step)) by lia.
      apply map_ext. intros i. lia.
    + apply Nat.ltb_ge in E.
      replace (stop - start) with 0 by lia. rewrite ceil_div_zero by lia. reflexivity.
Qed.

Lemma py_range_spec (n b : nat) :
  0 < b -> py_range 0 n b = map (fun i => i * b) (seq 0 (ceil_div n b)).
Proof.
  intros Hb. unfold py_range. rewrite range_from_spec by lia.
  rewrite Nat.sub_0_r. reflexivity.
Qed.

Lemma slice_length {T} (l : list T) (i j : nat) :
  List.length (slice l i j) = Nat.min (j - i) (List.length l - i).
Proof. unfold slice. rewrite length_firstn, length_skipn. reflexivity. Qed.

Lemma batches_spec {T} (l : list T) (b : nat) :
  0 < b ->
  batches l b = map (fun i => slice l (i * b) (i * b + b)) (seq 0 (ceil_div (List.length l) b)).
Proof. intros Hb. unfold batches. rewrite py_range_spec by lia. rewrite map_map. reflexivity. Qed.

Lemma batches_length {T} (l : list T) (b : nat) :
  0 < b -> List.length (batches l b) = ceil_div (List.length l) b.
Proof. intros Hb. rewrite batches_spec by lia. rewrite length_map, length_seq. reflexivity. Qed.

Lemma batches_nth {T} (l : list T) (b i : nat) :
  0 < b -> i < ceil_div (List.length l) b ->
  nth i (batches l b) [] = slice l (i * b) (i * b + b).
Proof.
  intros Hb Hi. rewrite batches_spec by lia.
  rewrite (nth_indep _ [] (slice l (0 * b) (0 * b + b)))
    by (rewrite length_map, length_seq; exact Hi).
  rewrite (map_nth (fun i => slice l (i * b) (i * b + b))).
  rewrite seq_nth by exact Hi. reflexivity.
Qed.


Lemma batches_last_nonempty {T} (l : list T) (b i : nat) :
  0 < b -> i < List.length (batches l b) ->
  0 < List.length (nth i (batches l b) []) <= b.
Proof.
  intros Hb Hi. rewrite batches_length in Hi by lia.
  rewrite batches_nth by lia. rewrite slice_length.
  destruct (List.length l) as [|n] eqn:E.
  - rewrite ceil_div_zero in Hi by lia. lia.
  - pose proof (ceil_div_bounds (S n) b Hb ltac:(lia)) as [Hlo _]. nia.
Qed.

Lemma chunked_batches {T} (l : list T) (b : nat) :
  0 < b -> chunked l b = Ok (batches l b).
Proof.
  intros Hb. unfold chunked. destruct (b <=? 0) eqn:E.
  - apply Nat.leb_le in E. lia.
  - reflexivity.
Qed.

(** ** The PySpark improve step *)

Lemma sparky_new_events_app (w w' : Sparky.World) (tr : list Sparky.event) :
  Sparky.trace w' = Sparky.trace w ++ tr -> Sparky.new_events w w' = tr.
Proof.
  intros H. unfold Sparky.new_events. rewrite H.
  rewrite skipn_app, skipn_all, Nat.sub_diag. reflexivity.
Qed.

Lemma sparky_invoke_inv {A} (e : reply A -> Sparky.event) (agent : nat -> reply A)
    (w w' : Sparky.World) (r : res A) :
  Sparky.invoke e agent w = (r, w') ->
  Sparky.trace w' = Sparky.trace w ++ [e (agent (Sparky.clock w))] /\
  Sparky.clock w' = S (Sparky.clock w) /\
  match r with
  | Ok a => agent (Sparky.clock w) = Answer a
  | Raise x => agent (Sparky.clock w) = Failure x
  | OutOfFuel => False
  end.
Proof.
  unfold Sparky.invoke. destruct (agent (Sparky.clock w)) as [a|x];
    intros H; inversion H; subst; simpl; auto.
Qed.

(** The loop sends one batch per start index, in order; when it returns,
    every batch was sent and the result is the last answer. *)
Lemma improve_loop_trace (agents : Sparky.Agents) (input : dict string)
    (imps : list string) (b : nat) :
  forall (starts : list nat) (conv : Sparky.converted) (acc : option Sparky.OutFiles)
         (w w' : Sparky.World) (r : res (option Sparky.OutFiles)),
    Sparky.improve_loop agents input imps b starts conv acc w = (r, w') ->
    exists tr,
      Sparky.trace w' = Sparky.trace w ++ tr /\
      Sparky.improvement_batches tr
      = map (fun i => slice imps i (i + b)) (firstn (List.length tr) starts) /\
      List.length (filter Sparky.is_improvement_call tr) = List.length tr /\
      List.length tr <= List.length starts /\
      match r with
      | Ok result =>
          List.length tr = List.length starts /\
          Sparky.last_improvement tr (option_map Answer acc) = option_map Answer result
      | Raise _ => True
      | OutOfFuel => False
      end.
Proof.
  induction starts as [|i rest IH]; intros conv acc w w' r H; simpl in H.
  - unfold ret in H. inversion H; subst. exists []. rewrite app_nil_r. simpl.
    repeat split; auto.
  - unfold bind in H.
    destruct (Sparky.invoke _ _ w) as [[a|x|] w1] eqn:E;
      apply sparky_invoke_inv in E; destruct E as (Et & Ec & Ea).
    + apply IH in H. destruct H as (tr & Ht & Hb & Hf & Hl & Hr).
      exists (Sparky.InvokeImprovement input conv (slice imps i (i + b))
                (Sparky.spark_improvement_agent agents (Sparky.clock w) input conv
                   (slice imps i (i + b))) :: tr).
      rewrite Ht, Et, <- app_assoc. simpl. rewrite Hb, Hf.
      repeat split; try reflexivity; try lia.
      destruct r as [result|e|]; auto. destruct Hr as [Hl' Hr]. split; [lia|].
      rewrite Ea. exact Hr.
    + inversion H; subst.
      exists [Sparky.InvokeImprovement input conv (slice imps i (i + b))
                (Sparky.spark_improvement_agent agents (Sparky.clock w) input conv
                   (slice imps i (i + b)))].
      simpl. repeat split; auto; lia.
    + contradiction.
Qed.


(** C10.  With an empty list of improvements the loop of [spark_improve]
    runs no batch: the call never returns a state update, and when the
    keys it reads are present it raises the unbound-variable error without
    having called the agent. *)
Theorem spark_improve_empty_unbound :
  forall (agents : Sparky.Agents) (st : Sparky.PySparkState) (w : Sparky.World),
    Sparky.improvements st = Some [] ->
    returned (fst (Sparky.spark_improve agents st w)) = false /\
    (forall input conv,
       Sparky.input_code st = Some input ->
       Sparky.converted_files st = Some conv ->
       Sparky.spark_improve agents st w = (Raise UnboundLocalError, w)).
Proof.
  intros agents st w Hi.
  unfold Sparky.spark_improve, Sparky.spark_improve_with, bind, item.
  rewrite Hi.
  destruct (Sparky.input_code st) as [input|]; [|split; [reflexivity|discriminate]].
  destruct (Sparky.converted_files st) as [conv|]; [|split; [reflexivity|discriminate]].
  simpl. split; [reflexivity|]. intros; reflexivity.
Qed.

Lemma spark_improve_empty_unbound_witness :
  Sparky.spark_improve (Demo.steady 50 []) (Demo.at_improve []) Sparky.empty_world
  = (Raise UnboundLocalError, Sparky.empty_world).
Proof.
  apply (proj2 (spark_improve_empty_unbound (Demo.steady 50 []) (Demo.at_improve [])
                  Sparky.empty_world eq_refl)
           [("job.sql", "select 1")] (Sparky.AsModel Demo.one_file));
    reflexivity.
Defined.

Lemma improve_loop_returns (agents : Sparky.Agents) (input : dict string)
    (imps : list string) (b : nat) :
  (forall t c bt, exists a,
      Sparky.spark_improvement_agent agents t input c bt = Answer a) ->
  forall (starts : list nat) (conv : Sparky.converted) (acc : option Sparky.OutFiles)
         (w : Sparky.World),
    returned (fst (Sparky.improve_loop agents input imps b starts conv acc w)) = true.
Proof.
  intros Hans. induction starts as [|i rest IH]; intros conv acc w; simpl.
  - reflexivity.
  - unfold bind, Sparky.invoke.
    destruct (Hans (Sparky.clock w) conv (slice imps i (i + b))) as [a Ha].
    rewrite Ha. apply IH.
Qed.






(** ** The dependency store *)






(** C9.  [save_code] rewrites the catalogue file whole: afterwards the
    catalogue binds the unit's name to its code and every other key to
    what it was bound to before; a catalogue that did not exist holds
    exactly that one entry; no other file changes. *)
Theorem save_code_frame :
  forall (self : Element.SPConverter) (w : Element.World) (old : dict json),
    match dict_get Element.stored_procedure_json (Element.files w) with
    | None => old = []
    | Some j => j = JObj old
    end ->
    let w' := snd (Element.save_code self w) in
    fst (Element.save_code self w) = Ok tt /\
    (exists data,
       dict_get Element.stored_procedure_json (Element.files w') = Some (JObj data) /\
       dict_get (Element.name self) data = Some (Element.code self) /\
       (forall k, k <> Element.name self -> dict_get k data = dict_get k old) /\
       (dict_get Element.stored_procedure_json (Element.files w) = None ->
        data = [(Element.name self, Element.code self)])) /\
    (forall path, path <> Element.stored_procedure_json ->
       dict_get path (Element.files w') = dict_get path (Element.files w)).
Proof.
  intros self w old H.
  unfold Element.save_code, bind, Element.log, modify, get. simpl.
  destruct (dict_get Element.stored_procedure_json (Element.files w)) as [j|] eqn:E.
  - subst j. simpl. split; [reflexivity|]. split.
    + exists (dict_set (Element.name self) (Element.code self) old).
      rewrite dict_get_set_same. split; [reflexivity|].
      split; [apply dict_get_set_same|].
      split; [intros k Hk; apply dict_get_set_other; exact Hk | discriminate].
    + intros path Hp. apply dict_get_set_other. exact Hp.
  - subst old. simpl. split; [reflexivity|]. split.
    + exists [(Element.name self, Element.code self)].
      rewrite dict_get_set_same. split; [reflexivity|].
      split; [simpl; rewrite String.eqb_refl; reflexivity|].
      split; [|reflexivity].
      intros k Hk. simpl. destruct (String.eqb k (Element.name self)) eqn:Ek; [|reflexivity].
      apply String.eqb_eq in Ek. contradiction.
    + intros path Hp. apply dict_get_set_other. exact Hp.
Qed.

Lemma save_code_frame_witness :
  fst (Element.save_code (Element.init (Demo.env (Demo.always 95) Demo.never)
                            "NewProc" false 2) Demo.store) = Ok tt.
Proof.
  apply (save_code_frame
           (Element.init (Demo.env (Demo.always 95) Demo.never) "NewProc" false 2)
           Demo.store
           [("GetOrderTotal.sql",
             JObj [("OrderTotalService.java", JStr "class OrderTotalService {}")])]).
  reflexivity.
Defined.

(** ** The stored-procedure improver *)

Lemma element_new_events_app (w w' : Element.World) (tr : list Element.event) :
  Element.trace w' = Element.trace w ++ tr -> Element.new_events w w' = tr.
Proof.
  intros H. unfold Element.new_events. rewrite H.
  rewrite skipn_app, skipn_all, Nat.sub_diag. reflexivity.
Qed.

Lemma element_invoke_eq {A} (e : reply A -> Element.event) (agent : nat -> reply A)
    (w : Element.World) :
  Element.invoke e agent w
  = (match agent (Element.clock w) with Answer a => Ok a | Failure x => Raise x end,
     {| Element.clock := S (Element.clock w);
        Element.trace := Element.trace w ++ [e (agent (Element.clock w))];
        Element.files := Element.files w |}).
Proof. unfold Element.invoke. destruct (agent (Element.clock w)); reflexivity. Qed.






(** ** Evaluation *)




(** ** The PySpark graph *)

Lemma executions_app (n : Sparky.node) (a b : list Sparky.event) :
  Sparky.executions n (a ++ b) = Sparky.executions n a + Sparky.executions n b.
Proof. unfold Sparky.executions. rewrite filter_app, length_app. reflexivity. Qed.

Lemma sparky_first_evaluation_app (a b : list Sparky.event) :
  Sparky.first_evaluation (a ++ b)
  = match Sparky.first_evaluation a with
    | Some x => Some x
    | None => Sparky.first_evaluation b
    end.
Proof.
  induction a as [|e a IH]; simpl; [reflexivity|].
  destruct e; try exact IH. reflexivity.
Qed.

Lemma plain_trace (tr : list Sparky.event) :
  forallb Sparky.plain tr = true ->
  (forall n, Sparky.executions n tr = 0) /\
  filter Sparky.is_improvement_call tr = [] /\
  Sparky.first_evaluation tr = None.
Proof.
  induction tr as [|e tr IH]; simpl; intros H.
  - repeat split; reflexivity.
  - apply andb_true_iff in H. destruct H as [He Ht].
    destruct (IH Ht) as (H1 & H2 & H3).
    unfold Sparky.executions in *. simpl.
    destruct e; try discriminate; simpl; repeat split; auto.
Qed.

Lemma improvement_trace (tr : list Sparky.event) :
  List.length (filter Sparky.is_improvement_call tr) = List.length tr ->
  (forall n, Sparky.executions n tr = 0) /\ Sparky.first_evaluation tr = None.
Proof.
  induction tr as [|e tr IH]; simpl; intros H.
  - split; reflexivity.
  - pose proof (filter_length_le Sparky.is_improvement_call tr) as Hle.
    destruct (Sparky.is_improvement_call e) eqn:E; simpl in H; [|lia].
    destruct (IH ltac:(lia)) as (H1 & H2).
    destruct e; try discriminate.
    unfold Sparky.executions in *. simpl. split; [intros n; destruct n; apply H1 | exact H2].
Qed.

Lemma spark_convert_trace (agents : Sparky.Agents) (st : Sparky.PySparkState)
    (w w' : Sparky.World) (r : res Sparky.PySparkState) :
  Sparky.spark_convert agents st w = (r, w') ->
  (exists tr, Sparky.trace w' = Sparky.trace w ++ tr /\ forallb Sparky.plain tr = true) /\
  match r with
  | Ok upd =>
      Sparky.iteration upd = None /\ Sparky.max_iters upd = None /\
      Sparky.target_score upd = None
  | Raise _ => True
  | OutOfFuel => False
  end.
Proof.
  unfold Sparky.spark_convert, bind, item.
  destruct (Sparky.input_code st) as [input|].
  - unfold ret at 1. unfold Sparky.invoke.
    destruct (Sparky.conversion_agent agents (Sparky.clock w) input) eqn:E;
      intros H; inversion H; subst; simpl; (split; [eexists; split; reflexivity | auto]).
  - unfold raise. intros H. inversion H; subst.
    split; [exists []; rewrite app_nil_r; split; reflexivity | exact I].
Qed.

Lemma evaluate_trace (agents : Sparky.Agents) (st : Sparky.PySparkState)
    (w w' : Sparky.World) (r : res Sparky.PySparkState) :
  Sparky.evaluate agents st w = (r, w') ->
  exists tr,
    Sparky.trace w' = Sparky.trace w ++ tr /\
    (forall n, Sparky.executions n tr = 0) /\
    filter Sparky.is_improvement_call tr = [] /\
    match r with
    | Ok upd =>
        exists e,
          Sparky.first_evaluation tr = Some (Answer e) /\
          Sparky.score upd = Some (EvaluationOut.score e) /\
          Sparky.iteration upd = None /\ Sparky.max_iters upd = None /\
          Sparky.target_score upd = None
    | Raise _ => forall e, Sparky.first_evaluation tr <> Some (Answer e)
    | OutOfFuel => False
    end.
Proof.
  unfold Sparky.evaluate, bind, item.
  destruct (Sparky.input_code st) as [input|];
    [|unfold raise; intros H; inversion H; subst; exists []; rewrite app_nil_r;
      repeat split; auto; discriminate].
  destruct (Sparky.converted_files st) as [conv|];
    [|unfold ret, raise; intros H; inversion H; subst; exists []; rewrite app_nil_r;
      repeat split; auto; discriminate].
  unfold ret at 1 2. unfold Sparky.invoke.
  destruct (Sparky.evaluation_agent agents (Sparky.clock w) conv input) as [e|x] eqn:E;
    intros H; inversion H; subst; simpl; eexists; (split; [reflexivity|]);
    (split; [intros n; destruct n; reflexivity|]); (split; [reflexivity|]).
  - exists e. repeat split; reflexivity.
  - intros e. simpl. discriminate.
Qed.

Lemma spark_improve_trace (agents : Sparky.Agents) (st : Sparky.PySparkState)
    (w w' : Sparky.World) (r : res Sparky.PySparkState) :
  Sparky.spark_improve agents st w = (r, w') ->
  exists tr,
    Sparky.trace w' = Sparky.trace w ++ tr /\
    (forall n, Sparky.executions n tr = 0) /\
    Sparky.first_evaluation tr = None /\
    match r with
    | Ok upd =>
        exists it,
          Sparky.iteration st = Some it /\ Sparky.iteration upd = Some (it + 1)%Z /\
          Sparky.max_iters upd = None /\ Sparky.target_score upd = None
    | Raise _ => True
    | OutOfFuel => False
    end.
Proof.
  unfold Sparky.spark_improve, Sparky.spark_improve_with, bind, item.
  destruct (Sparky.input_code st) as [input|];
    [|unfold raise; intros H; inversion H; subst; exists []; rewrite app_nil_r;
      repeat split; auto].
  destruct (Sparky.converted_files st) as [conv|];
    [|unfold ret, raise; intros H; inversion H; subst; exists []; rewrite app_nil_r;
      repeat split; auto].
  destruct (Sparky.improvements st) as [imps|];
    [|unfold ret, raise; intros H; inversion H; subst; exists []; rewrite app_nil_r;
      repeat split; auto].
  unfold ret at 1 2 3.
  destruct (Sparky.improve_loop agents input imps 7 _ conv None w) as [r1 w1] eqn:E.
  apply improve_loop_trace in E. destruct E as (tr & Ht & _ & Hf & _ & Hr).
  destruct (improvement_trace tr Hf) as [Hex Hfe].
  destruct r1 as [[last|]|x|]; [| | |contradiction].
  - destruct (Sparky.iteration st) as [it|]; unfold ret, raise; intros H;
      inversion H; subst; exists tr; repeat split; auto.
    exists it. simpl. repeat split; reflexivity.
  - unfold raise. intros H. inversion H; subst. exists tr. repeat split; auto.
  - intros H. inversion H; subst. exists tr. repeat split; auto.
Qed.

Lemma export_files_trace (dir : string) (code : list Sparky.OutFile) (w : Sparky.World) :
  exists tr,
    Sparky.export_files dir code w
    = (Ok tt, {| Sparky.clock := Sparky.clock w; Sparky.trace := Sparky.trace w ++ tr |}) /\
    forallb Sparky.plain tr = true.
Proof.
  revert w. induction code as [|file rest IH]; intros w; simpl.
  - exists []. rewrite app_nil_r. destruct w. split; reflexivity.
  - unfold bind, Sparky.log, modify. simpl.
    match goal with |- context [Sparky.export_files dir rest ?w1] =>
      destruct (IH w1) as (tr & Ht & Hp) end.
    rewrite Ht. simpl. eexists. rewrite <- !app_assoc. split; [reflexivity|].
    simpl. exact Hp.
Qed.

Lemma spark_export_trace (st : Sparky.PySparkState)
    (w w' : Sparky.World) (r : res Sparky.PySparkState) :
  Sparky.spark_export st w = (r, w') ->
  (exists tr, Sparky.trace w' = Sparky.trace w ++ tr /\ forallb Sparky.plain tr = true) /\
  match r with
  | Ok upd => upd = Sparky.no_update
  | Raise _ => True
  | OutOfFuel => False
  end.
Proof.
  unfold Sparky.spark_export, bind, item.
  destruct (Sparky.out_path st) as [out|];
    [|unfold raise; intros H; inversion H; subst;
      split; [exists []; rewrite app_nil_r; split; reflexivity | exact I]].
  destruct (Sparky.converted_files st) as [[m|l]|]; unfold ret at 1 2.
  - unfold Sparky.log, modify, raise. simpl. intros H. inversion H; subst. simpl.
    split; [eexists; split; reflexivity | exact I].
  - unfold Sparky.log, modify. simpl.
    match goal with |- context [Sparky.export_files ?d l ?w1] =>
      destruct (export_files_trace d l w1) as (tr & Ht & Hp) end.
    rewrite Ht. unfold ret. simpl. intros H. inversion H; subst. simpl.
    split; [|reflexivity]. eexists. rewrite <- app_assoc. split; [reflexivity|].
    simpl. exact Hp.
  - unfold raise. intros H. inversion H; subst.
    split; [exists []; rewrite app_nil_r; split; reflexivity | exact I].
Qed.

Lemma merge_keeps_budget (st upd : Sparky.PySparkState) :
  Sparky.iteration upd = None -> Sparky.max_iters upd = None ->
  Sparky.target_score upd = None ->
  Sparky.rounds_left (Sparky.merge st upd) = Sparky.rounds_left st /\
  Sparky.target_score (Sparky.merge st upd) = Sparky.target_score st /\
  Sparky.iteration (Sparky.merge st upd) = Sparky.iteration st /\
  Sparky.max_iters (Sparky.merge st upd) = Sparky.max_iters st.
Proof.
  intros Hi Hm Ht. unfold Sparky.rounds_left, Sparky.merge. simpl.
  rewrite Hi, Hm, Ht. simpl. repeat split; reflexivity.
Qed.

Lemma step_convert (agents : Sparky.Agents) (st : Sparky.PySparkState)
    (w w' : Sparky.World) (r : res (Sparky.node * Sparky.PySparkState)) :
  Sparky.step agents Sparky.Nconvert st w = (r, w') ->
  exists tr,
    Sparky.trace w' = Sparky.trace w ++ Sparky.Enter Sparky.Nconvert :: tr /\
    forallb Sparky.plain tr = true /\
    match r with
    | Ok (n', st') =>
        n' = Sparky.Nevaluate /\
        Sparky.rounds_left st' = Sparky.rounds_left st /\
        Sparky.target_score st' = Sparky.target_score st
    | Raise _ => True
    | OutOfFuel => False
    end.
Proof.
  unfold Sparky.step, bind, Sparky.log, modify. simpl.
  match goal with |- context [Sparky.spark_convert agents st ?w1] =>
    destruct (Sparky.spark_convert agents st w1) as [r1 w1'] eqn:E end.
  apply spark_convert_trace in E. destruct E as [(tr & Ht & Hp) Hr]. simpl in Ht.
  destruct r1 as [upd|x|]; [| |contradiction].
  - unfold ret. intros H. inversion H; subst. exists tr.
    rewrite Ht, <- app_assoc. split; [reflexivity|]. split; [exact Hp|].
    destruct Hr as (Hi & Hm & Htg).
    destruct (merge_keeps_budget st upd Hi Hm Htg) as (H1 & H2 & _).
    auto.
  - intros H. inversion H; subst. exists tr.
    rewrite Ht, <- app_assoc. auto.
Qed.

Lemma route_cases (st : Sparky.PySparkState) :
  (Sparky._route_after_evaluate st = "export" /\
   Sparky.next_node Sparky.Nevaluate st = ret Sparky.Nexport) \/
  (Sparky._route_after_evaluate st = "improve" /\
   Sparky.next_node Sparky.Nevaluate st = ret Sparky.Nimprove /\
   1 <= Sparky.rounds_left st /\
   float_ge (Sparky.default (float_of_Z 0) (Sparky.score st))
     (Sparky.default (float_of_Z 90) (Sparky.target_score st)) = false).
Proof.
  unfold Sparky.next_node, Sparky._route_after_evaluate, Sparky.rounds_left.
  destruct (float_ge _ _); [left; split; reflexivity|].
  destruct (Z.geb_spec (Sparky.default 0%Z (Sparky.iteration st))
              (Sparky.default 3%Z (Sparky.max_iters st))).
  - left; split; reflexivity.
  - right. repeat split; try reflexivity. lia.
Qed.

Lemma step_evaluate (agents : Sparky.Agents) (st : Sparky.PySparkState)
    (w w' : Sparky.World) (r : res (Sparky.node * Sparky.PySparkState)) :
  Sparky.step agents Sparky.Nevaluate st w = (r, w') ->
  exists tr,
    Sparky.trace w' = Sparky.trace w ++ Sparky.Enter Sparky.Nevaluate :: tr /\
    (forall n, Sparky.executions n tr = 0) /\
    filter Sparky.is_improvement_call tr = [] /\
    match r with
    | Ok (n', st') =>
        Sparky.rounds_left st' = Sparky.rounds_left st /\
        (n' = Sparky.Nexport \/ (n' = Sparky.Nimprove /\ 1 <= Sparky.rounds_left st)) /\
        exists e,
          Sparky.first_evaluation tr = Some (Answer e) /\
          (float_ge (EvaluationOut.score e)
             (Sparky.default (float_of_Z 90) (Sparky.target_score st)) = true ->
           n' = Sparky.Nexport)
    | Raise _ => forall e, Sparky.first_evaluation tr <> Some (Answer e)
    | OutOfFuel => False
    end.
Proof.
  unfold Sparky.step, bind, Sparky.log, modify. cbv beta iota.
  change (Sparky.run_node agents Sparky.Nevaluate st) with (Sparky.evaluate agents st).
  match goal with |- context [Sparky.evaluate agents st ?w1] =>
    destruct (Sparky.evaluate agents st w1) as [r1 w1'] eqn:E end.
  apply evaluate_trace in E. destruct E as (tr & Ht & Hex & Hf & Hr). simpl in Ht.
  destruct r1 as [upd|x|]; [| |contradiction].
  - destruct Hr as (e & Hfe & Hs & Hi & Hm & Htg).
    destruct (merge_keeps_budget st upd Hi Hm Htg) as (H1 & H2 & _).
    assert (Hsc : Sparky.score (Sparky.merge st upd) = Some (EvaluationOut.score e)).
    { unfold Sparky.merge. simpl. rewrite Hs. reflexivity. }
    destruct (route_cases (Sparky.merge st upd)) as [[_ Hn]|(_ & Hn & Hrl & Hge)];
      rewrite Hn; unfold ret; intros H; inversion H; subst; exists tr;
      rewrite Ht, <- app_assoc; (split; [reflexivity|]); (split; [exact Hex|]);
      (split; [exact Hf|]); (split; [exact H1|]).
    + split; [left; reflexivity|]. exists e. split; [exact Hfe | reflexivity].
    + split; [right; split; [reflexivity | rewrite <- H1; exact Hrl]|].
      exists e. split; [exact Hfe|].
      rewrite Hsc, H2 in Hge. simpl in Hge. rewrite Hge. discriminate.
  - intros H. inversion H; subst. exists tr.
    rewrite Ht, <- app_assoc. auto.
Qed.

Lemma step_improve (agents : Sparky.Agents) (st : Sparky.PySparkState)
    (w w' : Sparky.World) (r : res (Sparky.node * Sparky.PySparkState)) :
  Sparky.step agents Sparky.Nimprove st w = (r, w') ->
  exists tr,
    Sparky.trace w' = Sparky.trace w ++ Sparky.Enter Sparky.Nimprove :: tr /\
    (forall n, Sparky.executions n tr = 0) /\
    match r with
    | Ok (n', st') =>
        n' = Sparky.Nevaluate /\
        Sparky.rounds_left st' = Nat.pred (Sparky.rounds_left st)
    | Raise _ => True
    | OutOfFuel => False
    end.
Proof.
  unfold Sparky.step, bind, Sparky.log, modify. simpl.
  match goal with |- context [Sparky.spark_improve agents st ?w1] =>
    destruct (Sparky.spark_improve agents st w1) as [r1 w1'] eqn:E end.
  apply spark_improve_trace in E. destruct E as (tr & Ht & Hex & _ & Hr). simpl in Ht.
  destruct r1 as [upd|x|]; [| |contradiction].
  - destruct Hr as (it & Hit & Hi & Hm & _).
    unfold ret. intros H. inversion H; subst. exists tr.
    rewrite Ht, <- app_assoc. split; [reflexivity|]. split; [exact Hex|].
    split; [reflexivity|].
    unfold Sparky.rounds_left, Sparky.merge. simpl. rewrite Hi, Hm, Hit. simpl. lia.
  - intros H. inversion H; subst. exists tr.
    rewrite Ht, <- app_assoc. auto.
Qed.

Lemma step_export (agents : Sparky.Agents) (st : Sparky.PySparkState)
    (w w' : Sparky.World) (r : res (Sparky.node * Sparky.PySparkState)) :
  Sparky.step agents Sparky.Nexport st w = (r, w') ->
  exists tr,
    Sparky.trace w' = Sparky.trace w ++ Sparky.Enter Sparky.Nexport :: tr /\
    forallb Sparky.plain tr = true /\
    match r with
    | Ok (n', st') => n' = Sparky.END
    | Raise _ => True
    | OutOfFuel => False
    end.
Proof.
  unfold Sparky.step, bind, Sparky.log, modify. simpl.
  match goal with |- context [Sparky.spark_export st ?w1] =>
    destruct (Sparky.spark_export st w1) as [r1 w1'] eqn:E end.
  apply spark_export_trace in E. destruct E as [(tr & Ht & Hp) Hr]. simpl in Ht.
  destruct r1 as [upd|x|]; [| |contradiction].
  - unfold ret. intros H. inversion H; subst. exists tr.
    rewrite Ht, <- app_assoc. auto.
  - intros H. inversion H; subst. exists tr.
    rewrite Ht, <- app_assoc. auto.
Qed.

Lemma executions_enter (n m : Sparky.node) (tr : list Sparky.event) :
  Sparky.executions n (Sparky.Enter m :: tr)
  = (if Sparky.is_enter n (Sparky.Enter m) then 1 else 0) + Sparky.executions n tr.
Proof.
  unfold Sparky.executions. cbn [filter].
  destruct (Sparky.is_enter n (Sparky.Enter m)); reflexivity.
Qed.

(** The closing step of each case of the induction on the run:
    arithmetic on the counts, the step bound passed to the rest of the
    run, the export owed by a run that returns. *)
Ltac finish_run Hr Hs :=
  repeat split; try lia;
  match goal with
  | |- returned _ = true -> _ =>
      let Hret := fresh "Hret" in intros Hret; specialize (Hr Hret); lia
  | |- _ -> _ <> OutOfFuel => intros; apply Hs; lia
  end.

(** From any node, a run makes no more evaluations than the rounds left
    allow, enters export at most once, has entered it when it returns,
    and ends within the step bound. *)
Lemma run_from_bounds (agents : Sparky.Agents) :
  forall (fuel : nat) (n : Sparky.node) (st : Sparky.PySparkState)
         (w w' : Sparky.World) (r : res Sparky.PySparkState),
    Sparky.run_from agents fuel n st w = (r, w') ->
    exists tr,
      Sparky.trace w' = Sparky.trace w ++ tr /\
      Sparky.executions Sparky.Nevaluate tr <= Sparky.evaluations_bound n st /\
      Sparky.executions Sparky.Nexport tr <= Sparky.exports_due n /\
      (returned r = true -> Sparky.executions Sparky.Nexport tr = Sparky.exports_due n) /\
      (Sparky.steps_bound n st <= fuel -> r <> OutOfFuel).
Proof.
  induction fuel as [|f IH]; intros n st w w' r H.
  - destruct n; simpl in H; inversion H; subst; exists []; rewrite app_nil_r;
      unfold Sparky.executions; simpl; repeat split; try lia; try discriminate.
  - destruct n; simpl in H;
      try (inversion H; subst; exists []; rewrite app_nil_r;
           unfold Sparky.executions; simpl; repeat split; try lia; discriminate);
      unfold bind in H;
      match type of H with context [Sparky.step agents ?n st w] =>
        destruct (Sparky.step agents n st w) as [[[n' st']|x|] w1] eqn:Es end.
    + (* convert *)
      apply step_convert in Es. destruct Es as (tr1 & Ht1 & Hp & Hn & Hrl & _).
      destruct (plain_trace tr1 Hp) as (Hex & _ & _).
      subst n'. simpl in H. apply IH in H.
      destruct H as (tr2 & Ht2 & He & Hx & Hr & Hs).
      exists (Sparky.Enter Sparky.Nconvert :: tr1 ++ tr2).
      rewrite Ht2, Ht1, <- app_assoc. split; [reflexivity|].
      rewrite !executions_enter, !executions_app, !Hex. simpl in *.
      rewrite Hrl in *. finish_run Hr Hs.
    + apply step_convert in Es. destruct Es as (tr1 & Ht1 & Hp & _).
      destruct (plain_trace tr1 Hp) as (Hex & _ & _).
      inversion H; subst.
      exists (Sparky.Enter Sparky.Nconvert :: tr1).
      rewrite Ht1. split; [reflexivity|].
      rewrite !executions_enter, !Hex. simpl. repeat split; try lia; discriminate.
    + apply step_convert in Es. destruct Es as (tr1 & _ & _ & []).
    + (* evaluate *)
      apply step_evaluate in Es.
      destruct Es as (tr1 & Ht1 & Hex & _ & Hrl & Hn & _).
      simpl in H. apply IH in H.
      destruct H as (tr2 & Ht2 & He & Hx & Hr & Hs).
      exists (Sparky.Enter Sparky.Nevaluate :: tr1 ++ tr2).
      rewrite Ht2, Ht1, <- app_assoc. split; [reflexivity|].
      rewrite !executions_enter, !executions_app, !Hex.
      destruct Hn as [Hn|[Hn Hge]]; subst n'; simpl in *; rewrite ?Hrl in *;
        finish_run Hr Hs.
    + apply step_evaluate in Es. destruct Es as (tr1 & Ht1 & Hex & _).
      inversion H; subst.
      exists (Sparky.Enter Sparky.Nevaluate :: tr1).
      rewrite Ht1. split; [reflexivity|].
      rewrite !executions_enter, !Hex. simpl. repeat split; try lia; discriminate.
    + apply step_evaluate in Es. destruct Es as (tr1 & _ & _ & _ & []).
    + (* improve *)
      apply step_improve in Es. destruct Es as (tr1 & Ht1 & Hex & Hn & Hrl).
      subst n'. simpl in H. apply IH in H.
      destruct H as (tr2 & Ht2 & He & Hx & Hr & Hs).
      exists (Sparky.Enter Sparky.Nimprove :: tr1 ++ tr2).
      rewrite Ht2, Ht1, <- app_assoc. split; [reflexivity|].
      rewrite !executions_enter, !executions_app, !Hex. simpl in *.
      rewrite Hrl in *. finish_run Hr Hs.
    + apply step_improve in Es. destruct Es as (tr1 & Ht1 & Hex & _).
      inversion H; subst.
      exists (Sparky.Enter Sparky.Nimprove :: tr1).
      rewrite Ht1. split; [reflexivity|].
      rewrite !executions_enter, !Hex. simpl. repeat split; try lia; discriminate.
    + apply step_improve in Es. destruct Es as (tr1 & _ & _ & []).
    + (* export *)
      apply step_export in Es. destruct Es as (tr1 & Ht1 & Hp & Hn).
      destruct (plain_trace tr1 Hp) as (Hex & _ & _).
      subst n'. simpl in H. apply IH in H.
      destruct H as (tr2 & Ht2 & He & Hx & Hr & Hs).
      exists (Sparky.Enter Sparky.Nexport :: tr1 ++ tr2).
      rewrite Ht2, Ht1, <- app_assoc. split; [reflexivity|].
      rewrite !executions_enter, !executions_app, !Hex. simpl in *.
      finish_run Hr Hs.
    + apply step_export in Es. destruct Es as (tr1 & Ht1 & Hp & _).
      destruct (plain_trace tr1 Hp) as (Hex & _ & _).
      inversion H; subst.
      exists (Sparky.Enter Sparky.Nexport :: tr1).
      rewrite Ht1. split; [reflexivity|].
      rewrite !executions_enter, !Hex. simpl. repeat split; try lia; discriminate.
    + apply step_export in Es. destruct Es as (tr1 & _ & _ & []).
Qed.

Lemma run_export_quiet (agents : Sparky.Agents) (fuel : nat)
    (st : Sparky.PySparkState) (w w' : Sparky.World) (r : res Sparky.PySparkState) :
  Sparky.run_from agents fuel Sparky.Nexport st w = (r, w') ->
  exists tr,
    Sparky.trace w' = Sparky.trace w ++ tr /\
    Sparky.executions Sparky.Nimprove tr = 0 /\
    filter Sparky.is_improvement_call tr = [].
Proof.
  destruct fuel as [|f]; simpl; intros H.
  - inversion H; subst. exists []. rewrite app_nil_r. repeat split; reflexivity.
  - unfold bind in H.
    destruct (Sparky.step agents Sparky.Nexport st w) as [[[n' st']|x|] w1] eqn:Es;
      apply step_export in Es; destruct Es as (tr1 & Ht1 & Hp & Hn);
      destruct (plain_trace tr1 Hp) as (Hex & Hf & _); [| |contradiction].
    + subst n'. simpl in H. destruct f; simpl in H; inversion H; subst;
        exists (Sparky.Enter Sparky.Nexport :: tr1); rewrite Ht1;
        rewrite executions_enter, Hex; simpl; rewrite Hf; repeat split; reflexivity.
    + inversion H; subst.
      exists (Sparky.Enter Sparky.Nexport :: tr1); rewrite Ht1;
        rewrite executions_enter, Hex; simpl; rewrite Hf; repeat split; reflexivity.
Qed.

(** A first evaluation at or above the target sends the graph from
    evaluate to export: no improve node, no improvement call. *)
Lemma pyspark_fast_path (agents : Sparky.Agents) (fuel : nat)
    (st : Sparky.PySparkState) (w w' : Sparky.World) (r : res Sparky.PySparkState)
    (e : EvaluationOut.t) :
  Sparky.pyspark_graph_invoke agents fuel st w = (r, w') ->
  Sparky.first_evaluation (Sparky.new_events w w') = Some (Answer e) ->
  float_ge (EvaluationOut.score e)
    (Sparky.default (float_of_Z 90) (Sparky.target_score st)) = true ->
  Sparky.executions Sparky.Nimprove (Sparky.new_events w w') = 0 /\
  filter Sparky.is_improvement_call (Sparky.new_events w w') = [].
Proof.
  unfold Sparky.pyspark_graph_invoke. intros H Hfe Hge.
  destruct fuel as [|f]; simpl in H.
  { inversion H; subst. unfold Sparky.new_events in Hfe.
    rewrite skipn_all in Hfe. discriminate. }
  unfold bind in H.
  destruct (Sparky.step agents Sparky.Nconvert st w) as [[[n1 st1]|x|] w1] eqn:Es;
    apply step_convert in Es; destruct Es as (tr1 & Ht1 & Hp & Hr1);
    destruct (plain_trace tr1 Hp) as (Hex1 & Hf1 & Hfe1); [| |contradiction].
  2:{ inversion H; subst. rewrite (sparky_new_events_app _ _ _ Ht1) in Hfe.
      simpl in Hfe. rewrite Hfe1 in Hfe. discriminate. }
  destruct Hr1 as (Hn1 & _ & Htg). subst n1. simpl in H.
  destruct f as [|f]; simpl in H.
  { inversion H; subst. rewrite (sparky_new_events_app _ _ _ Ht1) in Hfe.
    simpl in Hfe. rewrite Hfe1 in Hfe. discriminate. }
  unfold bind in H.
  destruct (Sparky.step agents Sparky.Nevaluate st1 w1) as [[[n2 st2]|x|] w2] eqn:Es;
    apply step_evaluate in Es; destruct Es as (tr2 & Ht2 & Hex2 & Hf2 & Hr2);
    [| |contradiction].
  2:{ inversion H; subst.
      assert (Ht : Sparky.trace w' = Sparky.trace w ++
                   Sparky.Enter Sparky.Nconvert :: tr1 ++ Sparky.Enter Sparky.Nevaluate :: tr2).
      { rewrite Ht2, Ht1, <- app_assoc. reflexivity. }
      rewrite (sparky_new_events_app _ _ _ Ht) in Hfe. simpl in Hfe.
      rewrite sparky_first_evaluation_app, Hfe1 in Hfe. simpl in Hfe.
      exfalso. exact (Hr2 e Hfe). }
  destruct Hr2 as (_ & _ & e0 & Hfe2 & Hroute). simpl in H.
  assert (Hpre : forall tr3,
            Sparky.first_evaluation
              (Sparky.Enter Sparky.Nconvert :: tr1 ++
               Sparky.Enter Sparky.Nevaluate :: tr2 ++ tr3) = Some (Answer e0)).
  { intros tr3. simpl. rewrite sparky_first_evaluation_app, Hfe1. simpl.
    rewrite sparky_first_evaluation_app, Hfe2. reflexivity. }
  assert (Hn2 : forall tr3,
            Sparky.trace w' = Sparky.trace w2 ++ tr3 ->
            Sparky.new_events w w'
            = Sparky.Enter Sparky.Nconvert :: tr1 ++
              Sparky.Enter Sparky.Nevaluate :: tr2 ++ tr3).
  { intros tr3 Ht3. apply sparky_new_events_app.
    rewrite Ht3, Ht2, Ht1, <- !app_assoc. reflexivity. }
  assert (Hexp : n2 = Sparky.Nexport).
  { destruct (Sparky.run_from agents f n2 st2 w2) as [r3 w3] eqn:E3.
    inversion H; subst r3 w3.
    destruct (run_from_bounds agents f n2 st2 w2 w' r E3) as (tr3 & Ht3 & _).
    rewrite (Hn2 tr3 Ht3), Hpre in Hfe. inversion Hfe; subst e0.
    apply Hroute. rewrite Htg. exact Hge. }
  subst n2. apply run_export_quiet in H. destruct H as (tr3 & Ht3 & Hex3 & Hf3).
  rewrite (Hn2 tr3 Ht3).
  rewrite !executions_enter, !executions_app, executions_enter, executions_app.
  rewrite Hex1, Hex2, Hex3. simpl.
  rewrite filter_app, Hf1. simpl. rewrite filter_app, Hf2, Hf3. split; reflexivity.
Qed.

(** ** The stored-procedure converter: what each phase records *)

Lemma count_app (p : Element.event -> bool) (a b : list Element.event) :
  Element.count p (a ++ b) = Element.count p a + Element.count p b.
Proof. unfold Element.count. rewrite filter_app, length_app. reflexivity. Qed.

Lemma element_first_evaluation_app (a b : list Element.event) :
  Element.first_evaluation (a ++ b)
  = match Element.first_evaluation a with
    | Some x => Some x
    | None => Element.first_evaluation b
    end.
Proof.
  induction a as [|e a IH]; simpl; [reflexivity|].
  destruct e; try exact IH. reflexivity.
Qed.

Lemma preparing_trace (tr : list Element.event) :
  forallb Element.preparing tr = true ->
  Element.count Element.is_evaluate tr = 0 /\
  Element.count Element.is_improve tr = 0 /\
  Element.count Element.is_export tr = 0 /\
  Element.first_evaluation tr = None.
Proof.
  unfold Element.count.
  induction tr as [|e tr IH]; simpl; intros H; [repeat split; reflexivity|].
  apply andb_true_iff in H. destruct H as [He Ht].
  destruct (IH Ht) as (H1 & H2 & H3 & H4).
  destruct e; try discriminate; simpl; repeat split; assumption.
Qed.

Lemma improving_trace (tr : list Element.event) :
  forallb Element.is_improve tr = true ->
  Element.count Element.is_evaluate tr = 0 /\
  Element.count Element.is_export tr = 0 /\
  Element.first_evaluation tr = None.
Proof.
  unfold Element.count.
  induction tr as [|e tr IH]; simpl; intros H; [repeat split; reflexivity|].
  apply andb_true_iff in H. destruct H as [He Ht].
  destruct (IH Ht) as (H1 & H2 & H3).
  destruct e; try discriminate; simpl; repeat split; assumption.
Qed.

Lemma find_in_data_ends (data : json) (key value : option string) :
  find_in_data data key value <> OutOfFuel.
Proof.
  assert (Hk : forall l, find_by_key key l <> OutOfFuel).
  { induction l as [|i l IH]; simpl; [discriminate|].
    destruct i; simpl; try discriminate.
    destruct key as [k|]; [destruct (dict_get k d)|]; simpl;
      try destruct (truthy _); try discriminate; exact IH. }
  assert (Hv : forall v l, find_by_value key v l <> OutOfFuel).
  { intros v. induction l as [|i l IH]; simpl; [discriminate|].
    destruct i; simpl; try discriminate.
    destruct key as [k|]; [destruct (dict_get k d) as [[]|]|]; simpl;
      try discriminate.
    destruct (String.eqb _ _); [discriminate | exact IH]. }
  unfold find_in_data.
  destruct (negb (truthy_arg key) && negb (truthy_arg value)); [discriminate|].
  destruct (truthy_arg key && negb (truthy_arg value)).
  - destruct data; simpl; try discriminate; [apply Hk|].
    destruct key as [k|]; [destruct (dict_get k d)|]; discriminate.
  - destruct data; simpl; try discriminate; destruct value; try discriminate; apply Hv.
Qed.

Lemma find_from_json_eq (f : string) (key value : option string) (w : Element.World) :
  Element.find_from_json f key value w
  = (match dict_get f (Element.files w) with
     | None => Raise FileNotFoundError
     | Some data => find_in_data data key value
     end,
     {| Element.clock := Element.clock w;
        Element.trace := Element.trace w ++ [Element.Find f key value];
        Element.files := Element.files w |}).
Proof.
  unfold Element.find_from_json, bind, Element.log, modify, get. simpl.
  destruct (dict_get f (Element.files w)); reflexivity.
Qed.

Lemma gather_trace (env : Element.Env) (f nf tf : string) :
  forall (ids : list string) (acc : string) (w w' : Element.World) (r : res string),
    Element.gather env f nf tf ids acc w = (r, w') ->
    (exists tr, Element.trace w' = Element.trace w ++ tr /\
                forallb Element.preparing tr = true) /\
    r <> OutOfFuel.
Proof.
  induction ids as [|e rest IH]; intros acc w w' r H; simpl in H.
  - inversion H; subst. split; [|discriminate].
    exists []. rewrite app_nil_r. split; reflexivity.
  - unfold bind in H. rewrite find_from_json_eq in H.
    destruct (dict_get f (Element.files w)) as [data|].
    + pose proof (find_in_data_ends data (Some nf) (Some (e ++ ".java")%string)) as Hend.
      destruct (find_in_data data (Some nf) (Some (e ++ ".java")%string)) as [entity|x|];
        [| |contradiction].
      * destruct (truthy entity).
        -- unfold Element.lift in H.
           destruct (Element.py_subscript entity nf) as [n|x|] eqn:En;
             [| |destruct entity; try discriminate En; simpl in En;
                 destruct (dict_get nf d); discriminate En].
           ++ destruct (Element.py_subscript entity tf) as [t|x|] eqn:Et;
                [| |destruct entity; try discriminate Et; simpl in Et;
                    destruct (dict_get tf d); discriminate Et].
              ** apply IH in H. destruct H as [(tr & Ht & Hp) Hr]. split; [|exact Hr].
                 eexists. rewrite Ht. simpl. rewrite <- app_assoc.
                 split; [reflexivity | exact Hp].
              ** inversion H; subst. split; [|discriminate].
                 eexists. simpl. split; reflexivity.
           ++ inversion H; subst. split; [|discriminate].
              eexists. simpl. split; reflexivity.
        -- apply IH in H. destruct H as [(tr & Ht & Hp) Hr]. split; [|exact Hr].
           eexists. rewrite Ht. simpl. rewrite <- app_assoc.
           split; [reflexivity | exact Hp].
      * inversion H; subst. split; [|discriminate].
        eexists. simpl. split; reflexivity.
    + inversion H; subst. split; [|discriminate].
      eexists. simpl. split; reflexivity.
Qed.

Lemma resolve_procedures_trace (env : Element.Env) (child : string -> M Element.World unit) :
  forall (ids : list string) (acc : string) (w w' : Element.World) (r : res string),
    Element.resolve_procedures env child ids acc w = (r, w') ->
    exists tr, Element.trace w' = Element.trace w ++ tr /\
               forallb Element.preparing tr = true.
Proof.
  induction ids as [|sp rest IH]; intros acc w w' r H; simpl in H.
  - inversion H; subst. exists []. rewrite app_nil_r. split; reflexivity.
  - unfold bind in H. rewrite find_from_json_eq in H.
    destruct (match dict_get Element.stored_procedure_json (Element.files w) with
              | Some data => find_in_data data (Some (Element.normalize sp)) None
              | None => Raise FileNotFoundError
              end) as [sps|x|].
    + destruct (truthy sps).
      * apply IH in H. destruct H as (tr & Ht & Hp).
        eexists. rewrite Ht. simpl. rewrite <- app_assoc.
        split; [reflexivity | exact Hp].
      * unfold Element.nested in H. cbn [fst snd] in H.
        match type of H with context [child ?n ?w0] =>
          destruct (child n w0) as [[[]|x|] wc] end; cbn [fst snd] in H.
        -- apply IH in H. destruct H as (tr & Ht & Hp).
           eexists. rewrite Ht. simpl. rewrite <- !app_assoc.
           split; [reflexivity | exact Hp].
        -- inversion H; subst. eexists. simpl. rewrite <- app_assoc.
           split; reflexivity.
        -- inversion H; subst. eexists. simpl. rewrite <- app_assoc.
           split; reflexivity.
    + inversion H; subst. eexists. simpl. split; reflexivity.
    + inversion H; subst. eexists. simpl. split; reflexivity.
Qed.

Lemma identify_dependancies_eq (env : Element.Env) (self : Element.SPConverter)
    (w : Element.World) :
  Element.identify_dependancies env self w
  = (Ok (match Element.identification_agent env (Element.clock w)
                 (Element.sp_content (Element.sp self)) with
         | Answer d => Some d
         | Failure _ => None
         end),
     {| Element.clock := S (Element.clock w);
        Element.trace :=
          Element.trace w ++
          [Element.Identify (Element.sp_content (Element.sp self))
             (Element.identification_agent env (Element.clock w)
                (Element.sp_content (Element.sp self)))];
        Element.files := Element.files w |}).
Proof.
  unfold Element.identify_dependancies, try_except, bind.
  rewrite element_invoke_eq.
  destruct (Element.identification_agent env (Element.clock w) _); reflexivity.
Qed.

(** Dependency preparation records only identification, lookups and
    child conversions; when it returns the dependencies are set; it can
    only fail to end inside a child conversion. *)
Lemma prepare_dependencies_trace (env : Element.Env)
    (child : string -> M Element.World unit) (self : Element.SPConverter)
    (w w' : Element.World) (r : res Element.SPConverter) :
  Element.prepare_dependencies env child self w = (r, w') ->
  (exists tr, Element.trace w' = Element.trace w ++ tr /\
              forallb Element.preparing tr = true) /\
  match r with
  | Ok self' =>
      (exists deps, Element.dependancies self' = Some deps) /\
      Element.iterations self' = Element.iterations self /\
      Element.name self' = Element.name self /\
      Element.recursion self' = Element.recursion self
  | Raise _ => True
  | OutOfFuel => Element.recursion self = true
  end.
Proof.
  unfold Element.prepare_dependencies, bind. rewrite identify_dependancies_eq.
  destruct (Element.identification_agent env (Element.clock w) _) as [d|x]; simpl.
  2:{ unfold raise. intros H. inversion H; subst.
      split; [eexists; split; reflexivity | exact I]. }
  match goal with |- context [Element.gather env ?f ?a ?b ?ids "" ?w1] =>
    destruct (Element.gather env f a b ids "" w1) as [r1 w1'] eqn:E1 end.
  apply gather_trace in E1. destruct E1 as [(tr1 & Ht1 & Hp1) Hr1]. simpl in Ht1.
  destruct r1 as [e|x|]; [| |contradiction].
  2:{ intros H. inversion H; subst. split; [|exact I].
      eexists. rewrite Ht1, <- app_assoc. split; [reflexivity | exact Hp1]. }
  match goal with |- context [Element.gather env ?f ?a ?b ?ids "" ?w1] =>
    destruct (Element.gather env f a b ids "" w1) as [r2 w2'] eqn:E2 end.
  apply gather_trace in E2. destruct E2 as [(tr2 & Ht2 & Hp2) Hr2].
  destruct r2 as [fn|x|]; [| |contradiction].
  2:{ intros H. inversion H; subst. split; [|exact I].
      eexists. rewrite Ht2, Ht1, <- !app_assoc. split; [reflexivity|].
      simpl. rewrite forallb_app, Hp1, Hp2. reflexivity. }
  match goal with |- context [Element.gather env ?f ?a ?b ?ids "" ?w1] =>
    destruct (Element.gather env f a b ids "" w1) as [r3 w3'] eqn:E3 end.
  apply gather_trace in E3. destruct E3 as [(tr3 & Ht3 & Hp3) Hr3].
  assert (Hall : forall tr4, forallb Element.preparing tr4 = true ->
            forallb Element.preparing
              ([Element.Identify (Element.sp_content (Element.sp self)) (Answer d)]
               ++ tr1 ++ tr2 ++ tr3 ++ tr4) = true).
  { intros tr4 Hp4. simpl. rewrite !forallb_app, Hp1, Hp2, Hp3, Hp4. reflexivity. }
  destruct r3 as [tg|x|]; [| |contradiction].
  2:{ intros H. inversion H; subst. split; [|exact I].
      eexists. rewrite Ht3, Ht2, Ht1, <- !app_assoc. split; [reflexivity|].
      specialize (Hall [] eq_refl). rewrite app_nil_r in Hall. exact Hall. }
  destruct (Element.recursion self) eqn:Hrec; simpl.
  - match goal with |- context [Element.resolve_procedures env child ?ids "" ?w1] =>
      destruct (Element.resolve_procedures env child ids "" w1) as [r4 w4'] eqn:E4 end.
    apply resolve_procedures_trace in E4. destruct E4 as (tr4 & Ht4 & Hp4).
    assert (Htr : Element.trace w4' = Element.trace w ++
              [Element.Identify (Element.sp_content (Element.sp self)) (Answer d)]
              ++ tr1 ++ tr2 ++ tr3 ++ tr4).
    { rewrite Ht4, Ht3, Ht2, Ht1, <- !app_assoc. reflexivity. }
    destruct r4 as [sps|x|]; unfold ret; intros H; inversion H; subst;
      (split; [eexists; split; [exact Htr | exact (Hall tr4 Hp4)]|]); simpl; auto.
    repeat split; eauto.
  - unfold ret. intros H. inversion H; subst. split.
    + eexists. rewrite Ht3, Ht2, Ht1, <- !app_assoc. split; [reflexivity|].
      specialize (Hall [] eq_refl). rewrite app_nil_r in Hall. exact Hall.
    + simpl. repeat split; eauto.
Qed.

Lemma convert_sp_trace (env : Element.Env) (fw : option string)
    (self : Element.SPConverter) (w : Element.World) :
  exists tr self',
    Element.convert_sp env fw self w
    = (Ok self', {| Element.clock := Element.clock w + List.length tr;
                    Element.trace := Element.trace w ++ tr;
                    Element.files := Element.files w |}) /\
    Element.count Element.is_evaluate tr = 0 /\
    Element.count Element.is_improve tr = 0 /\
    Element.count Element.is_export tr = 0 /\
    Element.first_evaluation tr = None /\
    Element.dependancies self' = Element.dependancies self /\
    Element.iterations self' = Element.iterations self /\
    Element.name self' = Element.name self /\
    Element.sp self' = Element.sp self.
Proof.
  unfold Element.convert_sp, try_except, bind, attr.
  destruct (Element.dependancies self) as [deps|] eqn:Hd.
  - unfold ret at 1. rewrite element_invoke_eq.
    match goal with |- context [Element.conversion_agent env ?t ?f ?q] =>
      destruct (Element.conversion_agent env t f q) as [a|x] eqn:Ea end.
    + eexists [_], _. unfold ret. simpl. rewrite Nat.add_1_r.
      split; [reflexivity|]. unfold Element.count. simpl. repeat split; auto.
    + eexists [_], _. unfold ret. simpl. rewrite Nat.add_1_r.
      split; [reflexivity|]. unfold Element.count. simpl. repeat split; auto.
  - exists [], self. unfold raise, ret. simpl.
    rewrite app_nil_r, Nat.add_0_r. destruct w. simpl.
    split; [reflexivity|]. unfold Element.count. simpl. repeat split; auto.
Qed.

Lemma evaluate_sp_eq (env : Element.Env) (self : Element.SPConverter)
    (w : Element.World) :
  Element.evaluate_sp env self w
  = (Ok (match Element.evaluation_agent env (Element.clock w)
                 (Element.sp_content (Element.sp self)) (Element.code self) with
         | Answer e => Element.EvalOut e
         | Failure _ => Element.EvalText "{}"
         end),
     {| Element.clock := S (Element.clock w);
        Element.trace :=
          Element.trace w ++
          [Element.Evaluate (Element.sp_content (Element.sp self)) (Element.code self)
             (Element.evaluation_agent env (Element.clock w)
                (Element.sp_content (Element.sp self)) (Element.code self))];
        Element.files := Element.files w |}).
Proof.
  unfold Element.evaluate_sp, try_except, bind.
  rewrite element_invoke_eq.
  destruct (Element.evaluation_agent env (Element.clock w) _ _); reflexivity.
Qed.

Lemma same_run_refl (self : Element.SPConverter) : Element.same_run self self.
Proof. repeat split. Qed.

Lemma same_run_trans (a b c : Element.SPConverter) :
  Element.same_run a b -> Element.same_run b c -> Element.same_run a c.
Proof.
  unfold Element.same_run. intros (H1 & H2 & H3) (H4 & H5 & H6).
  repeat split; congruence.
Qed.

(** [runV1] makes exactly one evaluation; it returns when the
    evaluation is answered and raises when it is not. *)
Lemma runV1_trace (env : Element.Env) (self : Element.SPConverter)
    (w w' : Element.World) (r : res Element.SPConverter) :
  Element.runV1 env self w = (r, w') ->
  exists tr a,
    Element.trace w' = Element.trace w ++ tr /\
    Element.count Element.is_evaluate tr = 1 /\
    Element.count Element.is_improve tr = 0 /\
    Element.count Element.is_export tr = 0 /\
    Element.first_evaluation tr = Some a /\
    match r with
    | Ok self' =>
        Element.same_run self self' /\
        exists e, a = Answer e /\ Element.evaluation self' = Some (Element.EvalOut e)
    | Raise _ => forall e, a <> Answer e
    | OutOfFuel => False
    end.
Proof.
  unfold Element.runV1, bind.
  destruct (convert_sp_trace env (Some "flask") self w)
    as (tr1 & self1 & Hc & He1 & Hi1 & Hx1 & Hf1 & Hd & Hit & Hn & _).
  rewrite Hc, evaluate_sp_eq. cbn [Element.clock Element.trace Element.files].
  match goal with |- context [Element.evaluation_agent env ?t ?a ?b] =>
    destruct (Element.evaluation_agent env t a b) as [e|x] eqn:Ea end;
    unfold Element.evaluation_out, bind, attr; simpl; unfold ret, raise;
    intros H; inversion H; subst; simpl;
    eexists (tr1 ++ [_]), _; rewrite <- app_assoc;
    (split; [reflexivity|]);
    rewrite !count_app, He1, Hi1, Hx1, element_first_evaluation_app, Hf1;
    unfold Element.count; simpl;
    (split; [reflexivity|]); (split; [reflexivity|]); (split; [reflexivity|]);
    (split; [reflexivity|]).
  - split; [repeat split; assumption|]. exists e. split; reflexivity.
  - intros e. discriminate.
Qed.

(** [convert_sp_v2] records only improvement calls, changes only the
    code, never raises, and ends on an agent that answers. *)
Lemma convert_sp_v2_trace (env : Element.Env) (imp : string) :
  forall (fuel : nat) (self : Element.SPConverter) (w w' : Element.World)
         (r : res Element.SPConverter),
    Element.convert_sp_v2 env fuel imp self w = (r, w') ->
    (exists tr, Element.trace w' = Element.trace w ++ tr /\
                forallb Element.is_improve tr = true) /\
    match r with
    | Ok self' =>
        Element.same_run self self' /\
        Element.evaluation self' = Element.evaluation self
    | Raise _ => False
    | OutOfFuel => True
    end /\
    (Element.always_answers env ->
     (exists d, Element.dependancies self = Some d) ->
     1 <= fuel -> r <> OutOfFuel).
Proof.
  induction fuel as [|f IH]; intros self w w' r H; simpl in H.
  - inversion H; subst. split; [exists []; rewrite app_nil_r; split; reflexivity|].
    split; [exact I|]. intros; lia.
  - unfold try_except, Element.improve_once, bind, attr in H.
    destruct (Element.dependancies self) as [deps|] eqn:Hd.
    + unfold ret at 1 in H. rewrite element_invoke_eq in H.
      destruct (Element.sp_improvement_agent env (Element.clock w)
                  (Element.improvement_request imp self deps)) as [a|x] eqn:Ea.
      * unfold ret in H. inversion H; subst. simpl.
        split; [eexists; split; reflexivity|].
        split; [split; [repeat split; assumption | reflexivity]|].
        discriminate.
      * apply IH in H. destruct H as ((tr & Ht & Hp) & Hr & _).
        split; [eexists; rewrite Ht; simpl; rewrite <- app_assoc;
                split; [reflexivity | exact Hp]|].
        split; [exact Hr|].
        intros Hans _ _. destruct (Hans (Element.clock w)
                                     (Element.improvement_request imp self deps)) as [a Ha].
        congruence.
    + unfold raise in H. apply IH in H. destruct H as (Htr & Hr & _).
      split; [exact Htr|]. split; [exact Hr|].
      intros _ [d Hd']. discriminate.
Qed.

Lemma apply_groups_trace (env : Element.Env) (fuel : nat) :
  forall (groups : list (list string)) (self : Element.SPConverter)
         (w w' : Element.World) (r : res Element.SPConverter),
    Element.apply_groups env fuel groups self w = (r, w') ->
    (exists tr, Element.trace w' = Element.trace w ++ tr /\
                forallb Element.is_improve tr = true) /\
    match r with
    | Ok self' =>
        Element.same_run self self' /\
        Element.evaluation self' = Element.evaluation self
    | Raise _ => False
    | OutOfFuel => True
    end /\
    (Element.always_answers env ->
     (exists d, Element.dependancies self = Some d) ->
     1 <= fuel -> r <> OutOfFuel).
Proof.
  induction groups as [|group rest IH]; intros self w w' r H; simpl in H.
  - inversion H; subst. split; [exists []; rewrite app_nil_r; split; reflexivity|].
    split; [split; [apply same_run_refl | reflexivity]|]. discriminate.
  - unfold bind in H.
    destruct (Element.convert_sp_v2 env fuel _ self w) as [r1 w1] eqn:E1.
    apply convert_sp_v2_trace in E1. destruct E1 as ((tr1 & Ht1 & Hp1) & Hr1 & Hend1).
    destruct r1 as [self1|x|]; [|contradiction|].
    + apply IH in H. destruct H as ((tr2 & Ht2 & Hp2) & Hr2 & Hend2).
      destruct Hr1 as [Hs1 He1].
      split; [exists (tr1 ++ tr2); rewrite Ht2, Ht1, <- app_assoc;
              split; [reflexivity | rewrite forallb_app, Hp1, Hp2; reflexivity]|].
      split.
      * destruct r as [self2|x|]; auto. destruct Hr2 as [Hs2 He2].
        split; [eapply same_run_trans; eassumption | congruence].
      * intros Hans [d Hd] Hf. apply Hend2; auto.
        exists d. destruct Hs1 as (Hd1 & _). congruence.
    + inversion H; subst.
      split; [exists tr1; split; assumption|]. split; [exact I|]. exact Hend1.
Qed.

(** [runV2] makes at most one evaluation and no export. *)
Lemma runV2_trace (env : Element.Env) (fuel : nat) (self : Element.SPConverter)
    (w w' : Element.World) (r : res Element.SPConverter) :
  Element.runV2 env fuel self w = (r, w') ->
  (exists tr, Element.trace w' = Element.trace w ++ tr /\
              Element.count Element.is_evaluate tr <= 1 /\
              Element.count Element.is_export tr = 0) /\
  match r with
  | Ok self' => Element.same_run self self'
  | _ => True
  end /\
  (Element.always_answers env ->
   (exists d, Element.dependancies self = Some d) ->
   1 <= fuel -> r <> OutOfFuel).
Proof.
  unfold Element.runV2, bind.
  assert (Hnil : forall w0 : Element.World,
            exists tr, Element.trace w0 = Element.trace w0 ++ tr /\
                       Element.count Element.is_evaluate tr <= 1 /\
                       Element.count Element.is_export tr = 0).
  { intros w0. exists []. rewrite app_nil_r. unfold Element.count. simpl.
    repeat split; lia. }
  unfold Element.evaluation_out at 1. unfold bind, attr.
  destruct (Element.evaluation self) as [[e|t]|]; unfold ret, raise;
    try (intros H; inversion H; subst; split; [apply Hnil|]; split; [exact I|];
         discriminate).
  unfold Element.lift. rewrite chunked_batches by lia.
  destruct (Element.apply_groups env fuel (batches (EvaluationOut.improvements e) 2) self w)
    as [r1 w1] eqn:E1.
  apply apply_groups_trace in E1. destruct E1 as ((tr1 & Ht1 & Hp1) & Hr1 & Hend1).
  destruct (improving_trace tr1 Hp1) as (He1 & Hx1 & _).
  destruct r1 as [self1|x|]; [|contradiction|].
  - rewrite evaluate_sp_eq. destruct Hr1 as [Hs1 _].
    match goal with |- context [Element.evaluation_agent env ?t ?a ?b] =>
      destruct (Element.evaluation_agent env t a b) as [e2|x] end;
      unfold Element.evaluation_out, bind, attr; simpl; unfold ret, raise;
      intros H; inversion H; subst; simpl;
      (split; [eexists (tr1 ++ [_]); rewrite Ht1, <- app_assoc;
               split; [reflexivity|]; rewrite !count_app, He1, Hx1;
               unfold Element.count; simpl; split; lia|]).
    + split; [|discriminate]. destruct Hs1 as (H1 & H2 & H3). repeat split; assumption.
    + split; [exact I | discriminate].
  - intros H. inversion H; subst.
    split; [exists tr1; rewrite He1, Hx1; repeat split; [assumption | lia]|].
    split; [exact I | exact Hend1].
Qed.

(** The loop of [run]: at most one evaluation per round, no export. *)
Lemma iterate_trace (env : Element.Env) (fuel : nat) :
  forall (n : nat) (self : Element.SPConverter) (w w' : Element.World)
         (r : res Element.SPConverter),
    Element.iterate env fuel n self w = (r, w') ->
    (exists tr, Element.trace w' = Element.trace w ++ tr /\
                Element.count Element.is_evaluate tr <= n /\
                Element.count Element.is_export tr = 0) /\
    match r with
    | Ok self' => Element.same_run self self'
    | _ => True
    end /\
    (Element.always_answers env ->
     (exists d, Element.dependancies self = Some d) ->
     1 <= fuel -> r <> OutOfFuel).
Proof.
  induction n as [|n IH]; intros self w w' r H; simpl in H.
  - inversion H; subst.
    split; [exists []; rewrite app_nil_r; unfold Element.count; simpl;
            repeat split; lia|].
    split; [apply same_run_refl | discriminate].
  - unfold bind in H. unfold Element.evaluation_out at 1 in H. unfold bind, attr in H.
    assert (Hnil : exists tr, Element.trace w = Element.trace w ++ tr /\
                     Element.count Element.is_evaluate tr <= S n /\
                     Element.count Element.is_export tr = 0).
    { exists []. rewrite app_nil_r. unfold Element.count. simpl. repeat split; lia. }
    destruct (Element.evaluation self) as [[e|t]|]; unfold ret, raise in H;
      try (inversion H; subst; split; [exact Hnil|]; split; [exact I | discriminate]).
    destruct (float_lt (EvaluationOut.score e) (float_of_Z 90)).
    + destruct (Element.runV2 env fuel self w) as [r1 w1] eqn:E1.
      apply runV2_trace in E1. destruct E1 as ((tr1 & Ht1 & He1 & Hx1) & Hr1 & Hend1).
      destruct r1 as [self1|x|].
      * apply IH in H. destruct H as ((tr2 & Ht2 & He2 & Hx2) & Hr2 & Hend2).
        split; [exists (tr1 ++ tr2); rewrite Ht2, Ht1, <- app_assoc;
                split; [reflexivity|]; rewrite !count_app; split; lia|].
        split.
        -- destruct r; auto. eapply same_run_trans; eassumption.
        -- intros Hans [d Hd] Hf. apply Hend2; auto.
           exists d. destruct Hr1 as (Hd1 & _). congruence.
      * inversion H; subst.
        split; [exists tr1; repeat split; [assumption | lia | assumption]|].
        split; [exact I | discriminate].
      * inversion H; subst.
        split; [exists tr1; repeat split; [assumption | lia | assumption]|].
        split; [exact I | exact Hend1].
    + apply IH in H. destruct H as ((tr2 & Ht2 & He2 & Hx2) & Hr2 & Hend2).
      split; [exists tr2; repeat split; [assumption | lia | assumption]|].
      split; assumption.
Qed.

(** With an evaluation at 90 or more the loop does nothing. *)
Lemma iterate_fast_path (env : Element.Env) (fuel : nat) (e : EvaluationOut.t)
    (self : Element.SPConverter) (w : Element.World) :
  Element.evaluation self = Some (Element.EvalOut e) ->
  float_ge (EvaluationOut.score e) (float_of_Z 90) = true ->
  forall n, Element.iterate env fuel n self w = (Ok self, w).
Proof.
  intros He Hge. induction n as [|n IH]; simpl; [reflexivity|].
  unfold bind. unfold Element.evaluation_out at 1. unfold bind, attr.
  rewrite He. unfold ret at 1 2. rewrite (float_ge_not_lt _ _ Hge).
  unfold ret at 1. exact IH.
Qed.

(** The tail of [run]: one export, then the catalogue write. *)
Lemma closing_trace (self : Element.SPConverter) (w w' : Element.World)
    (r : res Element.SPConverter) :
  (Element.export_code self ;;; Element.save_code self ;;; Element.package self ;;;
   ret self) w = (r, w') ->
  exists tr,
    Element.trace w' = Element.trace w ++ tr /\
    Element.count Element.is_evaluate tr = 0 /\
    Element.count Element.is_improve tr = 0 /\
    Element.count Element.is_export tr = 1 /\
    Element.first_evaluation tr = None /\
    match r with
    | Ok self' => self' = self /\ Element.persisted self w'
    | Raise _ => True
    | OutOfFuel => False
    end.
Proof.
  unfold bind, Element.export_code, Element.save_code, Element.package,
    Element.log, modify, get, bind. simpl.
  destruct (dict_get Element.stored_procedure_json (Element.files w)) as [j|] eqn:E.
  - destruct j; unfold raise, ret; simpl; intros H; inversion H; subst; simpl;
      eexists; rewrite <- ?app_assoc; (split; [reflexivity|]);
      unfold Element.count; simpl; repeat split; auto.
    unfold Element.persisted. simpl. eexists. rewrite dict_get_set_same.
    split; [reflexivity | apply dict_get_set_same].
  - unfold ret. simpl. intros H. inversion H; subst. simpl.
    eexists. rewrite <- ?app_assoc. split; [reflexivity|].
    unfold Element.count. simpl. repeat split; auto.
    unfold Element.persisted. simpl. eexists. rewrite dict_get_set_same.
    split; [reflexivity|]. simpl. rewrite String.eqb_refl. reflexivity.
Qed.

(** One run of the stored-procedure converter. *)
Lemma run_trace (env : Element.Env) :
  forall (fuel : nat) (self : Element.SPConverter) (w w' : Element.World)
         (r : res Element.SPConverter),
    Element.run env fuel self w = (r, w') ->
    exists tr,
      Element.trace w' = Element.trace w ++ tr /\
      Element.count Element.is_evaluate tr <= Z.to_nat (Element.iterations self) + 1 /\
      Element.count Element.is_export tr <= 1 /\
      (returned r = true -> Element.count Element.is_export tr = 1) /\
      (Element.always_answers env -> Element.recursion self = false -> 2 <= fuel ->
       r <> OutOfFuel) /\
      (forall e, Element.first_evaluation tr = Some (Answer e) ->
                 float_ge (EvaluationOut.score e) (float_of_Z 90) = true ->
                 Element.count Element.is_improve tr = 0) /\
      match r with
      | Ok self' => Element.name self' = Element.name self /\ Element.persisted self' w'
      | _ => True
      end.
Proof.
  intros fuel self w w' r H. destruct fuel as [|f]; simpl in H.
  { inversion H; subst. exists []. rewrite app_nil_r. unfold Element.count. simpl.
    repeat split; try assumption; try lia; try discriminate. }
  unfold bind at 1 in H.
  match type of H with context [Element.prepare_dependencies env ?c self w] =>
    destruct (Element.prepare_dependencies env c self w) as [r0 w0] eqn:E0 end.
  apply prepare_dependencies_trace in E0. destruct E0 as [(tr0 & Ht0 & Hp0) Hr0].
  destruct (preparing_trace tr0 Hp0) as (He0 & Hi0 & Hx0 & Hf0).
  destruct r0 as [self0|x|].
  2:{ inversion H; subst. exists tr0. rewrite He0, Hi0, Hx0, Hf0.
      repeat split; try assumption; try lia; try discriminate. }
  2:{ inversion H; subst. exists tr0. rewrite He0, Hi0, Hx0, Hf0.
      repeat split; try assumption; try lia; try discriminate. intros _ Hrec. congruence. }
  destruct Hr0 as ((deps & Hd0) & Hit0 & Hn0 & _).
  unfold bind at 1 in H.
  destruct (Element.runV1 env self0 w0) as [r1 w1] eqn:E1.
  apply runV1_trace in E1.
  destruct E1 as (tr1 & a & Ht1 & He1 & Hi1 & Hx1 & Hf1 & Hr1).
  assert (Hfe : forall rest, Element.first_evaluation (tr0 ++ tr1 ++ rest) = Some a).
  { intros rest. rewrite element_first_evaluation_app, Hf0,
      element_first_evaluation_app, Hf1. reflexivity. }
  destruct r1 as [self1|x|]; [| |contradiction].
  2:{ inversion H; subst. exists (tr0 ++ tr1).
      rewrite Ht1, Ht0, <- app_assoc. split; [reflexivity|].
      rewrite !count_app, He0, He1, Hx0, Hx1, Hi0, Hi1.
      repeat split; try assumption; try lia; try discriminate. }
  destruct Hr1 as ((Hd1 & Hit1 & Hn1) & e1 & Ha & Hev1). subst a.
  unfold bind at 1 in H.
  destruct (Element.iterate env f (Z.to_nat (Element.iterations self1)) self1 w1)
    as [r2 w2] eqn:E2.
  pose proof E2 as E2'.
  apply iterate_trace in E2. destruct E2 as ((tr2 & Ht2 & He2 & Hx2) & Hr2 & Hend2).
  assert (Hfast : forall e, Some (Answer e1) = Some (Answer e) ->
            float_ge (EvaluationOut.score e) (float_of_Z 90) = true ->
            r2 = Ok self1 /\ tr2 = []).
  { intros e Heq Hge. inversion Heq; subst e.
    rewrite (iterate_fast_path env f e1 self1 w1 Hev1 Hge) in E2'.
    inversion E2'; subst. split; [reflexivity|].
    apply app_inv_head with (l := Element.trace w2). rewrite app_nil_r. symmetry. exact Ht2. }
  rewrite Hit1, Hit0 in He2.
  destruct r2 as [self2|x|].
  - destruct Hr2 as (Hd2 & Hit2 & Hn2).
    apply closing_trace in H.
    destruct H as (tr3 & Ht3 & He3 & Hi3 & Hx3 & Hf3 & Hr3).
    exists (tr0 ++ tr1 ++ tr2 ++ tr3).
    rewrite Ht3, Ht2, Ht1, Ht0, <- !app_assoc. split; [reflexivity|].
    rewrite !count_app, He0, He1, He3, Hx0, Hx1, Hx2, Hx3, Hi0, Hi1, Hi3.
    split; [lia|]. split; [lia|]. split; [intros; lia|].
    split; [destruct r; [discriminate | discriminate | contradiction]|].
    split.
    + intros e Hfe' Hge. rewrite Hfe in Hfe'.
      destruct (Hfast e Hfe' Hge) as [_ Hnil]. subst tr2. reflexivity.
    + destruct r as [self3|x|]; auto. destruct Hr3 as [Hs3 Hper]. subst self3.
      split; [congruence | exact Hper].
  - inversion H; subst. exists (tr0 ++ tr1 ++ tr2).
    rewrite Ht2, Ht1, Ht0, <- !app_assoc. split; [reflexivity|].
    rewrite !count_app, He0, He1, Hx0, Hx1, Hx2, Hi0, Hi1.
    repeat split; try assumption; try lia; try discriminate.
    intros e Hfe' Hge. specialize (Hfe tr2). rewrite Hfe in Hfe'.
    destruct (Hfast e Hfe' Hge) as [Hok _]. discriminate.
  - inversion H; subst. exists (tr0 ++ tr1 ++ tr2).
    rewrite Ht2, Ht1, Ht0, <- !app_assoc. split; [reflexivity|].
    rewrite !count_app, He0, He1, Hx0, Hx1, Hx2, Hi0, Hi1.
    repeat split; try assumption; try lia; try discriminate.
    + intros Hans Hrec Hf. apply Hend2; [exact Hans | | lia].
      exists deps. congruence.
    + intros e Hfe' Hge. specialize (Hfe tr2). rewrite Hfe in Hfe'.
      destruct (Hfast e Hfe' Hge) as [Hok _]. discriminate.
Qed.

(** ** The iteration controller *)



(** C2.  When the first evaluation of a run scores at or above the
    target (the state's [target_score] in the PySpark graph, 90 in the
    stored-procedure converter), the run makes no improve step and no
    call of the improvement agent. *)
Theorem first_score_at_target_no_improve :
  forall (agents : Sparky.Agents) (fuel : nat) (st : Sparky.PySparkState)
         (w : Sparky.World) (env : Element.Env) (efuel : nat)
         (self : Element.SPConverter) (ew : Element.World),
    let tr := Sparky.new_events w (snd (Sparky.pyspark_graph_invoke agents fuel st w)) in
    let etr := Element.new_events ew (snd (Element.run env efuel self ew)) in
    (forall e,
       Sparky.first_evaluation tr = Some (Answer e) ->
       float_ge (EvaluationOut.score e)
         (Sparky.default (float_of_Z 90) (Sparky.target_score st)) = true ->
       Sparky.executions Sparky.Nimprove tr = 0 /\
       filter Sparky.is_improvement_call tr = []) /\
    (forall e,
       Element.first_evaluation etr = Some (Answer e) ->
       float_ge (EvaluationOut.score e) (float_of_Z 90) = true ->
       Element.count Element.is_improve etr = 0).
Proof.
  intros agents fuel st w env efuel self ew tr etr. split.
  - intros e Hfe Hge. subst tr.
    destruct (Sparky.pyspark_graph_invoke agents fuel st w) as [r w'] eqn:E.
    cbn [snd] in *. eapply pyspark_fast_path; eassumption.
  - intros e Hfe Hge. subst etr.
    destruct (Element.run env efuel self ew) as [r w'] eqn:E.
    apply run_trace in E. destruct E as (tr0 & Ht & _ & _ & _ & _ & Hfast & _).
    cbn [snd] in *. rewrite (element_new_events_app _ _ _ Ht) in *.
    eapply Hfast; eassumption.
Qed.

Lemma first_score_at_target_no_improve_witness :
  Sparky.executions Sparky.Nimprove
    (Sparky.new_events Sparky.empty_world
       (snd (Sparky.pyspark_graph_invoke (Demo.steady 95 ["a"]) 10 (Demo.start 2)
               Sparky.empty_world))) = 0 /\
  Element.count Element.is_improve
    (Element.new_events Demo.fresh
       (snd (Element.run (Demo.env (Demo.always 95) Demo.never) 2
               (Element.init (Demo.env (Demo.always 95) Demo.never) "Child" false 2)
               Demo.fresh))) = 0.
Proof.
  destruct (first_score_at_target_no_improve (Demo.steady 95 ["a"]) 10 (Demo.start 2)
              Sparky.empty_world (Demo.env (Demo.always 95) Demo.never) 2
              (Element.init (Demo.env (Demo.always 95) Demo.never) "Child" false 2)
              Demo.fresh) as [H1 H2].
  split.
  - apply (H1 (EvaluationOut.Build ["a"] (float_of_Z 95) "reason")).
    + vm_compute. reflexivity.
    + vm_compute. reflexivity.
  - apply (H2 (EvaluationOut.Build ["a"; "b"; "c"] (float_of_Z 95) "reason")).
    + vm_compute. reflexivity.
    + vm_compute. reflexivity.
Defined.

(** ** Recursive resolution of internal procedures *)








(** ** Batches of improvements *)













Example chunked_15_7 :
  chunked (seq 0 15) 7 = Ok [seq 0 7; seq 7 7; [14]].
Proof. reflexivity. Qed.

Example find_named_mixed_case :
  find_in_data
    (JArr [JObj [("entity_name", JStr "Orders.java")]])
    (Some "entity_name") (Some "ORDERS.JAVA")
  = Ok (JObj [("entity_name", JStr "Orders.java")]).
Proof. reflexivity. Qed.

(** ** Further properties of the chunking helper *)

Lemma firstn_add {T} (a b : nat) (l : list T) :
  firstn (a + b) l = firstn a l ++ firstn b (skipn a l).
Proof.
  revert l. induction a as [|a IH]; intros l; simpl.
  - reflexivity.
  - destruct l as [|x l]; simpl.
    + rewrite firstn_nil. reflexivity.
    + rewrite IH. reflexivity.
Qed.

Lemma concat_slices {T} (l : list T) (b n : nat) :
  List.concat (map (fun i => slice l (i * b) (i * b + b)) (seq 0 n)) = firstn (n * b) l.
Proof.
  induction n as [|n IH].
  - reflexivity.
  - rewrite seq_S, map_app, concat_app, IH. simpl.
    rewrite app_nil_r. unfold slice.
    replace (n * b + b - n * b) with b by lia.
    replace (b + n * b) with (n * b + b) by lia.
    rewrite firstn_add. reflexivity.
Qed.

(** X1.  For a positive chunk size, [chunked] cuts the list without
    losing, repeating or reordering an element: the chunks, put end to
    end, are the list, and every chunk has between one and
    [chunk_size] elements. *)
Theorem chunked_concat {T} (items : list T) (chunk_size : nat) :
  0 < chunk_size ->
  exists chunks,
    chunked items chunk_size = Ok chunks /\
    List.concat chunks = items /\
    Forall (fun c => 0 < List.length c <= chunk_size) chunks.
Proof.
  intros Hb. exists (batches items chunk_size).
  split; [apply chunked_batches; exact Hb|]. split.
  - rewrite batches_spec by exact Hb. rewrite concat_slices.
    apply firstn_all2.
    destruct (List.length items) as [|n] eqn:E; [lia|].
    pose proof (ceil_div_bounds (S n) chunk_size Hb ltac:(lia)). lia.
  - apply Forall_forall. intros c Hc.
    apply (In_nth _ _ []) in Hc. destruct Hc as [i [Hi Hn]]. subst c.
    apply batches_last_nonempty; assumption.
Qed.

Lemma chunked_concat_witness :
  exists chunks,
    chunked ["a"; "b"; "c"; "d"; "e"] 2 = Ok chunks /\
    List.concat chunks = ["a"; "b"; "c"; "d"; "e"] /\
    Forall (fun c => 0 < List.length c <= 2) chunks.
Proof. apply (chunked_concat ["a"; "b"; "c"; "d"; "e"] 2). lia. Defined.

(** ** Runs of the stored-procedure converter that end early *)

(** X2.  When the identification agent fails, [identify_dependancies]
    swallows the error and returns [None]; [prepare_dependencies] then
    reads [self.dependancies.entities] and [run] ends with
    [AttributeError].  The failed identification is the only call the
    run has made: nothing is converted, evaluated, exported or saved. *)
Theorem run_stops_at_failed_identification :
  forall (env : Element.Env) (fuel : nat) (self : Element.SPConverter)
         (w : Element.World) (x : exn),
    Element.identification_agent env (Element.clock w)
      (Element.sp_content (Element.sp self)) = Failure x ->
    Element.run env (S fuel) self w
    = (Raise AttributeError,
       {| Element.clock := S (Element.clock w);
          Element.trace :=
            Element.trace w ++
            [Element.Identify (Element.sp_content (Element.sp self)) (Failure x)];
          Element.files := Element.files w |}).
Proof.
  intros env fuel self w x H.
  cbn [Element.run]. unfold bind at 1. unfold Element.prepare_dependencies.
  unfold bind at 1. unfold Element.identify_dependancies, try_except.
  unfold bind at 1. unfold Element.invoke. rewrite H. reflexivity.
Qed.

Lemma run_stops_at_failed_identification_witness :
  Element.run (Scenario.env false true true 95) 1
    (Element.init (Scenario.env false true true 95) "Orders" false 2) Demo.fresh
  = (Raise AttributeError,
     {| Element.clock := 1;
        Element.trace :=
          [Element.Identify "SELECT 1" (Failure (ServiceError "identification"))];
        Element.files := Element.files Demo.fresh |}).
Proof.
  apply (run_stops_at_failed_identification (Scenario.env false true true 95) 0
           (Element.init (Scenario.env false true true 95) "Orders" false 2)
           Demo.fresh (ServiceError "identification")).
  reflexivity.
Defined.

(** ** The phases of a run *)

Lemma convert_sp_eq (env : Element.Env) (fw : option string)
    (self : Element.SPConverter) (w : Element.World) :
  Element.convert_sp env fw self w
  = match Element.dependancies self with
    | None => (Ok self, w)
    | Some deps =>
        let request :=
          {| Element.cq_stored_procedure := Element.sp_content (Element.sp self);
             Element.cq_entities := Element.entities self;
             Element.cq_functions := Element.functions self;
             Element.cq_triggers := Element.triggers self;
             Element.cq_sample := Element.sample self;
             Element.cq_internal_stored_procedures :=
               IdentifyOut.internal_stored_procedures deps |} in
        (Ok (match Element.conversion_agent env (Element.clock w) fw request with
             | Answer s => Element.set_code self (Element.json_to_dict env s)
             | Failure _ => self
             end),
         {| Element.clock := S (Element.clock w);
            Element.trace :=
              Element.trace w ++
              [Element.Convert fw request
                 (Element.conversion_agent env (Element.clock w) fw request)];
            Element.files := Element.files w |})
    end.
Proof.
  unfold Element.convert_sp, try_except, bind.
  destruct (Element.dependancies self) as [deps|]; [|reflexivity].
  cbn [attr ret]. rewrite element_invoke_eq. cbv zeta.
  destruct (Element.conversion_agent env (Element.clock w) fw _); reflexivity.
Qed.

Lemma last_evaluation_app (a b : list Element.event)
    (acc : option (json * reply EvaluationOut.t)) :
  Events.last_evaluation (a ++ b) acc
  = Events.last_evaluation b (Events.last_evaluation a acc).
Proof.
  revert acc. induction a as [|e a IH]; intros acc; simpl; [reflexivity|].
  destruct e; apply IH.
Qed.

Lemma improving_is_working (tr : list Element.event) :
  forallb Element.is_improve tr = true ->
  forallb Events.working tr = true /\
  forall acc, Events.last_evaluation tr acc = acc.
Proof.
  induction tr as [|e tr IH]; simpl; intros H; [split; reflexivity|].
  apply andb_true_iff in H. destruct H as [He Ht].
  destruct (IH Ht) as [H1 H2].
  destruct e; try discriminate; simpl. split; [exact H1 | exact H2].
Qed.

Lemma element_trace_app_assoc (w : Element.World) (a b : list Element.event) :
  (Element.trace w ++ a) ++ b = Element.trace w ++ a ++ b.
Proof. symmetry. apply app_assoc. Qed.

(** [runV1]: at most one conversion, then one evaluation; the only
    error that leaves it is the [AttributeError] of reading the score
    of a failed evaluation. *)
Lemma runV1_phase (env : Element.Env) (self : Element.SPConverter)
    (w w' : Element.World) (r : res Element.SPConverter) :
  Element.runV1 env self w = (r, w') ->
  exists tr c a,
    Element.trace w' = Element.trace w ++ tr /\
    Element.files w' = Element.files w /\
    forallb Events.working tr = true /\
    Element.count Element.is_evaluate tr = 1 /\
    Element.count Element.is_improve tr = 0 /\
    Element.first_evaluation tr = Some a /\
    (forall acc, Events.last_evaluation tr acc = Some (c, a)) /\
    match r with
    | Ok self' =>
        exists e, a = Answer e /\ Element.evaluation self' = Some (Element.EvalOut e) /\
                  Element.code self' = c
    | Raise x => x = AttributeError /\ exists y, a = Failure y
    | OutOfFuel => False
    end.
Proof.
  unfold Element.runV1. unfold bind at 1. rewrite convert_sp_eq.
  destruct (Element.dependancies self) as [deps|]; cbv zeta.
  - match goal with |- context [Element.conversion_agent env ?t ?f ?q] =>
      set (request := q); set (reply := Element.conversion_agent env t f request) end.
    set (self1 := match reply with
                  | Answer s => Element.set_code self (Element.json_to_dict env s)
                  | Failure _ => self end).
    unfold bind at 1. rewrite evaluate_sp_eq. cbn [Element.clock Element.trace Element.files].
    match goal with |- context [Element.evaluation_agent env ?t ?s ?c] =>
      set (answer := Element.evaluation_agent env t s c) end.
    intros H.
    exists [Element.Convert (Some "flask") request reply;
            Element.Evaluate (Element.sp_content (Element.sp self1)) (Element.code self1) answer],
           (Element.code self1), answer.
    destruct answer as [e|y]; cbn in H; inversion H; subst; clear H;
      cbn [Element.trace Element.files]; rewrite <- app_assoc;
      repeat split; try reflexivity; eauto.
  - unfold bind at 1. rewrite evaluate_sp_eq.
    match goal with |- context [Element.evaluation_agent env ?t ?s ?c] =>
      set (answer := Element.evaluation_agent env t s c) end.
    intros H.
    exists [Element.Evaluate (Element.sp_content (Element.sp self)) (Element.code self) answer],
           (Element.code self), answer.
    destruct answer as [e|y]; cbn in H; inversion H; subst; clear H;
      cbn [Element.trace Element.files];
      repeat split; try reflexivity; eauto.
Qed.

(** [runV2]: improvement calls, then one evaluation of the code they
    left. *)
Lemma runV2_phase (env : Element.Env) (fuel : nat) (self : Element.SPConverter)
    (w w' : Element.World) (r : res Element.SPConverter) :
  Element.runV2 env fuel self w = (r, w') ->
  exists tr,
    Element.trace w' = Element.trace w ++ tr /\
    forallb Events.working tr = true /\
    match r with
    | Ok self' =>
        exists e, Element.evaluation self' = Some (Element.EvalOut e) /\
                  forall acc, Events.last_evaluation tr acc
                              = Some (Element.code self', Answer e)
    | Raise x =>
        x = AttributeError /\
        ((forall e, Element.evaluation self <> Some (Element.EvalOut e)) \/
         exists c y, forall acc, Events.last_evaluation tr acc = Some (c, Failure y))
    | OutOfFuel => True
    end.
Proof.
  unfold Element.runV2. unfold bind at 1.
  destruct (Element.evaluation_out self w) as [[e|x|] w0] eqn:E0.
  - assert (w0 = w) as ->.
    { unfold Element.evaluation_out, bind, attr in E0.
      destruct (Element.evaluation self) as [[?|?]|]; cbv in E0; inversion E0; reflexivity. }
    unfold bind at 1. rewrite chunked_batches by lia. cbn [Element.lift].
    unfold bind at 1.
    destruct (Element.apply_groups env fuel (batches (EvaluationOut.improvements e) 2) self w)
      as [[self1|x|] w1] eqn:E1.
    + destruct (apply_groups_trace env fuel _ _ _ _ _ E1) as [[tr1 [Ht1 Hi1]] _].
      destruct (improving_is_working tr1 Hi1) as [Hw1 Hl1].
      unfold bind at 1. rewrite evaluate_sp_eq.
      match goal with |- context [Element.evaluation_agent env ?t ?s ?c] =>
        set (answer := Element.evaluation_agent env t s c) end.
      intros H.
      exists (tr1 ++ [Element.Evaluate (Element.sp_content (Element.sp self1))
                        (Element.code self1) answer]).
      destruct answer as [e'|y]; cbn in H; inversion H; subst; clear H;
        cbn [Element.trace]; rewrite Ht1, <- app_assoc;
        (split; [reflexivity|]);
        (split; [rewrite forallb_app, Hw1; reflexivity|]).
      * exists e'. split; [reflexivity|]. intros acc.
        rewrite last_evaluation_app, Hl1. reflexivity.
      * split; [reflexivity|]. right. exists (Element.code self1), y. intros acc.
        rewrite last_evaluation_app, Hl1. reflexivity.
    + destruct (apply_groups_trace env fuel _ _ _ _ _ E1) as [_ [[] _]].
    + destruct (apply_groups_trace env fuel _ _ _ _ _ E1) as [[tr1 [Ht1 Hi1]] _].
      destruct (improving_is_working tr1 Hi1) as [Hw1 Hl1].
      intros H. inversion H; subst. exists tr1. repeat split; assumption.
  - intros H. inversion H; subst. exists [].
    unfold Element.evaluation_out, bind, attr in E0.
    destruct (Element.evaluation self) as [[?|?]|]; cbv in E0; inversion E0; subst;
      rewrite app_nil_r; (split; [reflexivity|]); (split; [reflexivity|]);
      (split; [reflexivity|]); left; intros e' He'; discriminate.
  - unfold Element.evaluation_out, bind, attr in E0.
    destruct (Element.evaluation self) as [[?|?]|]; cbn in E0; discriminate.
Qed.

(** The loop of [run] keeps the invariant that the object holds the
    answer of the last evaluation, made on the code it holds. *)
Lemma iterate_phase (env : Element.Env) (fuel : nat) :
  forall (n : nat) (self : Element.SPConverter) (w w' : Element.World)
         (r : res Element.SPConverter) (e : EvaluationOut.t),
    Element.evaluation self = Some (Element.EvalOut e) ->
    Element.iterate env fuel n self w = (r, w') ->
    exists tr,
      Element.trace w' = Element.trace w ++ tr /\
      forallb Events.working tr = true /\
      match r with
      | Ok self' =>
          exists e', Element.evaluation self' = Some (Element.EvalOut e') /\
                     Events.last_evaluation tr (Some (Element.code self, Answer e))
                     = Some (Element.code self', Answer e')
      | Raise x =>
          x = AttributeError /\
          exists c y, forall acc, Events.last_evaluation tr acc = Some (c, Failure y)
      | OutOfFuel => True
      end.
Proof.
  induction n as [|n IH]; intros self w w' r e He H.
  - cbn in H. inversion H; subst. exists []. rewrite app_nil_r.
    repeat split. exists e. split; [exact He | reflexivity].
  - cbn [Element.iterate] in H. unfold bind at 1 in H.
    assert (E0 : Element.evaluation_out self w = (Ok e, w)).
    { unfold Element.evaluation_out, bind, attr. rewrite He. reflexivity. }
    rewrite E0 in H. unfold bind at 1 in H.
    destruct (float_lt (EvaluationOut.score e) (float_of_Z 90)).
    + destruct (Element.runV2 env fuel self w) as [[self1|x|] w1] eqn:E1.
      * destruct (runV2_phase env fuel self w w1 _ E1) as [tr1 [Ht1 [Hw1 [e1 [He1 Hl1]]]]].
        destruct (IH self1 w1 w' r e1 He1 H) as [tr2 [Ht2 [Hw2 Hr]]].
        exists (tr1 ++ tr2). rewrite Ht2, Ht1, <- app_assoc.
        split; [reflexivity|]. split; [rewrite forallb_app, Hw1, Hw2; reflexivity|].
        destruct r as [self'|x|]; [| |exact I].
        -- destruct Hr as [e' [He' Hl']]. exists e'. split; [exact He'|].
           rewrite last_evaluation_app, Hl1. exact Hl'.
        -- destruct Hr as [Hx [c [y Hl']]]. split; [exact Hx|]. exists c, y.
           intros acc. rewrite last_evaluation_app. apply Hl'.
      * inversion H; subst.
        destruct (runV2_phase env fuel self w w' _ E1) as [tr1 [Ht1 [Hw1 [Hx Hc]]]].
        destruct Hc as [Hnil | Hc].
        -- exfalso. apply (Hnil e). exact He.
        -- exists tr1. repeat split; assumption.
      * inversion H; subst.
        destruct (runV2_phase env fuel self w w' _ E1) as [tr1 [Ht1 [Hw1 _]]].
        exists tr1. repeat split; assumption.
    + cbn [ret] in H. apply (IH self w w' r e He H).
Qed.


(** The steps after the loop: export, save, package.  Only the save
    can fail, on a catalogue that is not an object. *)
Lemma closing_phase (self : Element.SPConverter) (w w' : Element.World)
    (r : res Element.SPConverter) :
  (Element.export_code self ;;; Element.save_code self ;;; Element.package self ;;;
   ret self) w = (r, w') ->
  exists close,
    Element.trace w' = Element.trace w ++ close /\
    forallb Events.closing close = true /\
    match r with
    | Ok self' =>
        self' = self /\
        close = [Element.ExportCode (Element.name self) (Element.code self)
                   (Element.evaluation self);
                 Element.SaveCode (Element.name self) (Element.code self);
                 Element.Package (Element.name self)]
    | Raise x =>
        x = TypeError /\
        close = [Element.ExportCode (Element.name self) (Element.code self)
                   (Element.evaluation self);
                 Element.SaveCode (Element.name self) (Element.code self)]
    | OutOfFuel => False
    end.
Proof.
  unfold Element.export_code, Element.save_code, Element.package, Element.log,
    bind, modify, get, ret, raise.
  cbn [Element.trace Element.files Element.clock].
  destruct (dict_get Element.stored_procedure_json (Element.files w)) as [[| | | | |d]|];
    intros H; inversion H; subst; clear H; cbn [Element.trace];
    repeat rewrite <- app_assoc; cbn [app];
    eexists; (split; [reflexivity|]); repeat split; reflexivity.
Qed.

Lemma run_unfold (env : Element.Env) (f : nat) (self : Element.SPConverter)
    (w : Element.World) :
  Element.run env (S f) self w
  = match Element.prepare_dependencies env
            (fun sp => Element.run env f
                         (Element.init env sp (Element.recursion self)
                            (Element.iterations self)) ;;; ret tt) self w with
    | (Ok s1, w1) =>
        match Element.runV1 env s1 w1 with
        | (Ok s2, w2) =>
            match Element.iterate env f (Z.to_nat (Element.iterations s2)) s2 w2 with
            | (Ok s3, w3) =>
                (Element.export_code s3 ;;; Element.save_code s3 ;;;
                 Element.package s3 ;;; ret s3) w3
            | (Raise x, w3) => (Raise x, w3)
            | (OutOfFuel, w3) => (OutOfFuel, w3)
            end
        | (Raise x, w2) => (Raise x, w2)
        | (OutOfFuel, w2) => (OutOfFuel, w2)
        end
    | (Raise x, w1) => (Raise x, w1)
    | (OutOfFuel, w1) => (OutOfFuel, w1)
    end.
Proof.
  cbn [Element.run]. unfold bind at 1.
  destruct (Element.prepare_dependencies env _ self w) as [[s1|x|] w1]; reflexivity.
Qed.

(** A run is preparation, then the loop, then the closing steps; what
    each outcome says about the three parts. *)
Lemma run_structure (env : Element.Env) (fuel : nat) (self : Element.SPConverter)
    (w w' : Element.World) (r : res Element.SPConverter) :
  Element.run env fuel self w = (r, w') ->
  exists prep work close,
    Element.trace w' = Element.trace w ++ prep ++ work ++ close /\
    forallb Element.preparing prep = true /\
    forallb Events.working work = true /\
    forallb Events.closing close = true /\
    match r with
    | Ok self' =>
        (exists e, Element.evaluation self' = Some (Element.EvalOut e) /\
                   Events.last_evaluation work None
                   = Some (Element.code self', Answer e)) /\
        close = [Element.ExportCode (Element.name self') (Element.code self')
                   (Element.evaluation self');
                 Element.SaveCode (Element.name self') (Element.code self');
                 Element.Package (Element.name self')]
    | Raise x =>
        (work = [] /\ close = []) \/
        (x = AttributeError /\ close = [] /\
         exists c y, Events.last_evaluation work None = Some (c, Failure y)) \/
        (x = TypeError /\ List.length close = 2)
    | OutOfFuel => close = []
    end /\
    (forall y, Element.first_evaluation work = Some (Failure y) ->
       r = Raise AttributeError /\ close = [] /\
       Element.count Element.is_evaluate work = 1 /\
       Element.count Element.is_improve work = 0).
Proof.
  destruct fuel as [|f].
  - cbn. intros H. inversion H; subst. exists [], [], []. rewrite app_nil_r.
    repeat split; try reflexivity; discriminate.
  - rewrite run_unfold.
    destruct (Element.prepare_dependencies env _ self w) as [r1 w1] eqn:E1.
    destruct (prepare_dependencies_trace env _ self w w1 r1 E1) as [[prep [Hp Hprep]] _].
    destruct r1 as [s1|x|].
    2:{ intros H. inversion H; subst. exists prep, [], []. rewrite app_nil_r.
        repeat split; try assumption; try reflexivity; [left; split; reflexivity | discriminate..]. }
    2:{ intros H. inversion H; subst. exists prep, [], []. rewrite app_nil_r.
        repeat split; try assumption; try reflexivity; discriminate. }
    destruct (Element.runV1 env s1 w1) as [r2 w2] eqn:E2.
    destruct (runV1_phase env s1 w1 w2 r2 E2)
      as (tr1 & c1 & a1 & Ht1 & _ & Hw1 & Hev1 & Him1 & Hf1 & Hl1 & Hr2).
    destruct r2 as [s2|x|]; [| |contradiction].
    2:{ intros H. inversion H; subst. destruct Hr2 as [-> [y ->]].
        exists prep, tr1, []. rewrite app_nil_r, Ht1, Hp, <- app_assoc.
        repeat split; try assumption; try reflexivity.
        right. left. repeat split. exists c1, y. apply Hl1. }
    destruct Hr2 as [e1 [-> [He1 Hc1]]].
    destruct (Element.iterate env f _ s2 w2) as [r3 w3] eqn:E3.
    destruct (iterate_phase env f _ s2 w2 w3 r3 e1 He1 E3) as (tr2 & Ht2 & Hw2 & Hr3).
    assert (Hfirst : forall y, Element.first_evaluation (tr1 ++ tr2) <> Some (Failure y)).
    { intros y. rewrite element_first_evaluation_app, Hf1. discriminate. }
    assert (Hwork : forallb Events.working (tr1 ++ tr2) = true)
      by (rewrite forallb_app, Hw1, Hw2; reflexivity).
    destruct r3 as [s3|x|].
    + intros H. destruct (closing_phase s3 w3 w' r H) as (close & Hc & Hcl & Hr).
      exists prep, (tr1 ++ tr2), close.
      rewrite Hc, Ht2, Ht1, Hp. repeat rewrite <- app_assoc.
      split; [reflexivity|]. split; [assumption|]. split; [assumption|].
      split; [assumption|].
      destruct Hr3 as [e3 [He3 Hl3]].
      split.
      * destruct r as [s4|x|]; [| |contradiction].
        -- destruct Hr as [-> ->]. split; [|reflexivity].
           exists e3. split; [exact He3|].
           rewrite last_evaluation_app, Hl1, <- Hc1. exact Hl3.
        -- destruct Hr as [-> ->]. right. right. split; reflexivity.
      * intros y Hy. exfalso. exact (Hfirst y Hy).
    + intros H. inversion H; subst. destruct Hr3 as [-> [c [y Hl3]]].
      exists prep, (tr1 ++ tr2), [].
      rewrite Ht2, Ht1, Hp, app_nil_r. repeat rewrite <- app_assoc.
      split; [reflexivity|]. split; [assumption|]. split; [assumption|].
      split; [reflexivity|]. split.
      * right. left. repeat split. exists c, y. rewrite last_evaluation_app. apply Hl3.
      * intros y' Hy. exfalso. exact (Hfirst y' Hy).
    + intros H. inversion H; subst.
      exists prep, (tr1 ++ tr2), [].
      rewrite Ht2, Ht1, Hp, app_nil_r. repeat rewrite <- app_assoc.
      split; [reflexivity|]. split; [assumption|]. split; [assumption|].
      split; [reflexivity|]. split; [reflexivity|].
      intros y' Hy. exfalso. exact (Hfirst y' Hy).
Qed.

Lemma count_disjoint (p q : Element.event -> bool) (tr : list Element.event) :
  (forall e, p e = true -> q e = false) ->
  forallb p tr = true -> Element.count q tr = 0.
Proof.
  intros Hpq. unfold Element.count.
  induction tr as [|e tr IH]; simpl; intros H; [reflexivity|].
  apply andb_true_iff in H. destruct H as [He Ht].
  rewrite (Hpq e He). apply IH. exact Ht.
Qed.

Lemma closing_is_quiet (tr : list Element.event) :
  forallb Events.closing tr = true -> Element.first_evaluation tr = None.
Proof.
  induction tr as [|e tr IH]; simpl; intros H; [reflexivity|].
  apply andb_true_iff in H. destruct H as [He Ht].
  destruct e; try discriminate; apply IH; exact Ht.
Qed.

(** X3.  When the first evaluation of a run fails, [evaluate_sp]
    returns the text ["{}"], [runV1] reads its [score] and the run ends
    with [AttributeError]: that evaluation is its only one, nothing is
    improved, and nothing is exported, saved or packaged. *)
Theorem run_stops_at_failed_evaluation :
  forall (env : Element.Env) (fuel : nat) (self : Element.SPConverter)
         (w : Element.World) (y : exn),
    let r := Element.run env fuel self w in
    let tr := Element.new_events w (snd r) in
    Element.first_evaluation tr = Some (Failure y) ->
    fst r = Raise AttributeError /\
    Element.count Element.is_evaluate tr = 1 /\
    Element.count Element.is_improve tr = 0 /\
    Element.count Events.closing tr = 0.
Proof.
  intros env fuel self w y r tr. subst tr r.
  destruct (Element.run env fuel self w) as [r w'] eqn:E. cbn [fst snd].
  destruct (run_structure env fuel self w w' r E)
    as (prep & work & close & Ht & Hp & Hw & Hc & _ & Hfail).
  rewrite (element_new_events_app w w' _ Ht).
  destruct (preparing_trace prep Hp) as (P1 & P2 & _ & P4).
  rewrite !element_first_evaluation_app, P4, (closing_is_quiet close Hc).
  intros Hf.
  assert (Hy : Element.first_evaluation work = Some (Failure y))
    by (destruct (Element.first_evaluation work); [exact Hf | discriminate]).
  destruct (Hfail y Hy) as (-> & -> & H1 & H2).
  rewrite app_nil_r, !count_app, P1, P2, H1, H2.
  rewrite (count_disjoint Element.preparing Events.closing prep) by (try assumption; intros []; cbn; congruence).
  rewrite (count_disjoint Events.working Events.closing work) by (try assumption; intros []; cbn; congruence).
  repeat split.
Qed.

Lemma run_stops_at_failed_evaluation_witness :
  Element.first_evaluation
    (Element.new_events Demo.fresh
       (snd (Element.run (Scenario.env true true false 0) 2
               (Element.init (Scenario.env true true false 0) "Orders" false 2)
               Demo.fresh)))
  = Some (Failure (ServiceError "evaluation")) /\
  fst (Element.run (Scenario.env true true false 0) 2
         (Element.init (Scenario.env true true false 0) "Orders" false 2) Demo.fresh)
  = Raise AttributeError.
Proof.
  split; [reflexivity|].
  apply (run_stops_at_failed_evaluation (Scenario.env true true false 0) 2
           (Element.init (Scenario.env true true false 0) "Orders" false 2)
           Demo.fresh (ServiceError "evaluation")).
  reflexivity.
Defined.




(** ** Errors that the converter swallows *)

(** X6.  [convert_sp] catches the failure of the conversion agent and
    leaves [self.code] as it was, and [runV1] goes on: the evaluation
    that follows is made on the unconverted code, and that code is what
    the object holds when [runV1] returns. *)
Theorem runV1_evaluates_unconverted_code :
  forall (env : Element.Env) (self : Element.SPConverter) (w : Element.World)
         (deps : IdentifyOut.t) (x : exn),
    Element.dependancies self = Some deps ->
    Element.conversion_agent env (Element.clock w) (Some "flask")
      {| Element.cq_stored_procedure := Element.sp_content (Element.sp self);
         Element.cq_entities := Element.entities self;
         Element.cq_functions := Element.functions self;
         Element.cq_triggers := Element.triggers self;
         Element.cq_sample := Element.sample self;
         Element.cq_internal_stored_procedures :=
           IdentifyOut.internal_stored_procedures deps |} = Failure x ->
    let r := Element.runV1 env self w in
    Element.evaluated_code (Element.new_events w (snd r)) = [Element.code self] /\
    Element.count Events.is_convert (Element.new_events w (snd r)) = 1 /\
    (forall self', fst r = Ok self' -> Element.code self' = Element.code self).
Proof.
  intros env self w deps x Hd Hx r. subst r.
  set (answer := Element.evaluation_agent env (S (Element.clock w))
                   (Element.sp_content (Element.sp self)) (Element.code self)).
  assert (E : exists r,
             Element.runV1 env self w
             = (r, {| Element.clock := S (S (Element.clock w));
                      Element.trace :=
                        Element.trace w ++
                        [Element.Convert (Some "flask")
                           {| Element.cq_stored_procedure :=
                                Element.sp_content (Element.sp self);
                              Element.cq_entities := Element.entities self;
                              Element.cq_functions := Element.functions self;
                              Element.cq_triggers := Element.triggers self;
                              Element.cq_sample := Element.sample self;
                              Element.cq_internal_stored_procedures :=
                                IdentifyOut.internal_stored_procedures deps |}
                           (Failure x);
                         Element.Evaluate (Element.sp_content (Element.sp self))
                           (Element.code self) answer];
                      Element.files := Element.files w |}) /\
             forall self', r = Ok self' -> Element.code self' = Element.code self).
  { unfold Element.runV1. unfold bind at 1. rewrite convert_sp_eq, Hd. cbv zeta.
    rewrite Hx. unfold bind at 1. rewrite evaluate_sp_eq.
    cbn [Element.clock Element.trace Element.files]. fold answer.
    rewrite <- app_assoc. cbn [app].
    destruct answer as [e|y]; eexists; (split; [reflexivity|]);
      intros self' H; inversion H; reflexivity. }
  destruct E as [r [E Hr]]. rewrite E. cbn [fst snd].
  unfold Element.new_events. cbn [Element.trace].
  rewrite skipn_app, skipn_all, Nat.sub_diag. cbn [skipn app].
  repeat split; try reflexivity. exact Hr.
Qed.

Lemma runV1_evaluates_unconverted_code_witness :
  Element.evaluated_code
    (Element.new_events Demo.fresh
       (snd (Element.runV1 (Scenario.env true false true 95)
               (Demo.parent (Scenario.env true false true 95)) Demo.fresh)))
  = [JArr []].
Proof.
  apply (runV1_evaluates_unconverted_code (Scenario.env true false true 95)
           (Demo.parent (Scenario.env true false true 95)) Demo.fresh
           (IdentifyOut.Build [] [] [] []) (ServiceError "conversion"));
    reflexivity.
Defined.

(** X7.  [convert_sp_v2] retries on every error, also on one that no
    retry can cure.  On an object whose [dependancies] were never set,
    building the request raises [AttributeError] each time: the method
    never returns, whatever the depth allowed, and the improvement
    agent is never called. *)
Theorem convert_sp_v2_without_dependencies :
  forall (env : Element.Env) (fuel : nat) (imp : string)
         (self : Element.SPConverter) (w : Element.World),
    Element.dependancies self = None ->
    Element.convert_sp_v2 env fuel imp self w = (OutOfFuel, w).
Proof.
  intros env fuel imp self w Hd.
  induction fuel as [|f IH]; [reflexivity|].
  cbn [Element.convert_sp_v2]. unfold try_except, Element.improve_once.
  unfold bind at 1. rewrite Hd. cbn [attr raise]. exact IH.
Qed.

Lemma convert_sp_v2_without_dependencies_witness :
  Element.convert_sp_v2 (Scenario.env true true true 50) 1000 "a"
    (Element.init (Scenario.env true true true 50) "Orders" false 2) Demo.fresh
  = (OutOfFuel, Demo.fresh).
Proof.
  apply (convert_sp_v2_without_dependencies (Scenario.env true true true 50) 1000 "a"
           (Element.init (Scenario.env true true true 50) "Orders" false 2) Demo.fresh).
  reflexivity.
Defined.

(** X8.  Without recursion, [prepare_dependencies] never starts a child
    conversion: its outcome is the same whatever the child conversion
    would do, it cannot run out of depth, and it leaves
    [stored_procedures] as it found it. *)
Theorem prepare_dependencies_without_recursion :
  forall (env : Element.Env) (child child' : string -> M Element.World unit)
         (self : Element.SPConverter) (w : Element.World),
    Element.recursion self = false ->
    Element.prepare_dependencies env child self w
    = Element.prepare_dependencies env child' self w /\
    fst (Element.prepare_dependencies env child self w) <> OutOfFuel /\
    (forall self',
       fst (Element.prepare_dependencies env child self w) = Ok self' ->
       Element.stored_procedures self' = Element.stored_procedures self).
Proof.
  intros env child child' self w Hr.
  unfold Element.prepare_dependencies, bind.
  rewrite identify_dependancies_eq.
  destruct (Element.identification_agent env _ _) as [deps|x]; cbn [attr ret raise].
  2:{ repeat split; try discriminate. }
  repeat match goal with
  | |- context [Element.gather env ?f ?n ?t ?ids ?acc ?w0] =>
      let E := fresh "E" in
      destruct (Element.gather env f n t ids acc w0) as [[?|?|] ?] eqn:E;
      [ | cbn [fst]; repeat split; discriminate
        | exfalso; exact (proj2 (gather_trace env _ _ _ _ _ _ _ _ E) eq_refl) ]
  end.
  cbn [Element.recursion Element.set_resolved Element.set_dependancies]. rewrite Hr.
  cbn [fst]. repeat split; try discriminate. intros self' H. inversion H. reflexivity.
Qed.

Lemma prepare_dependencies_without_recursion_witness :
  Element.prepare_dependencies (Demo.env (Demo.always 95) Demo.never)
    (fun _ => ret tt)
    (Element.init (Demo.env (Demo.always 95) Demo.never) "Parent" false 2) Demo.store
  = Element.prepare_dependencies (Demo.env (Demo.always 95) Demo.never)
      (fun _ => raise KeyError)
      (Element.init (Demo.env (Demo.always 95) Demo.never) "Parent" false 2) Demo.store.
Proof.
  apply (prepare_dependencies_without_recursion (Demo.env (Demo.always 95) Demo.never)
           (fun _ => ret tt) (fun _ => raise KeyError)
           (Element.init (Demo.env (Demo.always 95) Demo.never) "Parent" false 2)
           Demo.store).
  reflexivity.
Defined.

(** ** The PySpark graph: what reaches the export *)

Lemma step_inv (agents : Sparky.Agents) (n n' : Sparky.node)
    (st st' : Sparky.PySparkState) (w w' : Sparky.World) :
  Sparky.step agents n st w = (Ok (n', st'), w') ->
  exists upd w1,
    Sparky.run_node agents n st
      {| Sparky.clock := Sparky.clock w;
         Sparky.trace := Sparky.trace w ++ [Sparky.Enter n] |} = (Ok upd, w1) /\
    st' = Sparky.merge st upd /\
    Sparky.next_node n (Sparky.merge st upd) w1 = (Ok n', w').
Proof.
  unfold Sparky.step, Sparky.log, bind, modify.
  destruct (Sparky.run_node agents n st _) as [[upd|x|] w1]; try discriminate.
  destruct (Sparky.next_node n (Sparky.merge st upd) w1) as [[m|x|] w2] eqn:E;
    try discriminate.
  intros H. inversion H; subst. exists upd, w1. repeat split. exact E.
Qed.



Lemma run_from_extends (agents : Sparky.Agents) (fuel : nat) (n : Sparky.node)
    (st : Sparky.PySparkState) (w w' : Sparky.World) (r : res Sparky.PySparkState) :
  Sparky.run_from agents fuel n st w = (r, w') ->
  exists tr, Sparky.trace w' = Sparky.trace w ++ tr.
Proof.
  intros H. destruct (run_from_bounds agents fuel n st w w' r H) as [tr [Ht _]].
  exists tr. exact Ht.
Qed.

Lemma step_extends (agents : Sparky.Agents) (n : Sparky.node)
    (st : Sparky.PySparkState) (w w' : Sparky.World)
    (r : res (Sparky.node * Sparky.PySparkState)) :
  Sparky.step agents n st w = (r, w') ->
  exists tr, Sparky.trace w' = Sparky.trace w ++ Sparky.Enter n :: tr /\
             forall m, Sparky.executions m tr = 0.
Proof.
  intros H. destruct n.
  - destruct (step_convert agents st w w' r H) as [tr [Ht [Hp _]]].
    exists tr. split; [exact Ht | apply (plain_trace tr Hp)].
  - destruct (step_evaluate agents st w w' r H) as [tr [Ht [He _]]]. eauto.
  - destruct (step_improve agents st w w' r H) as [tr [Ht [He _]]]. eauto.
  - destruct (step_export agents st w w' r H) as [tr [Ht [Hp _]]].
    exists tr. split; [exact Ht | apply (plain_trace tr Hp)].
  - cbv in H. inversion H; subst. exists []. split; reflexivity.
Qed.

Lemma run_from_step (agents : Sparky.Agents) (f : nat) (n : Sparky.node)
    (st : Sparky.PySparkState) (w : Sparky.World) :
  n <> Sparky.END ->
  Sparky.run_from agents (S f) n st w
  = match Sparky.step agents n st w with
    | (Ok ns, w1) => Sparky.run_from agents f (fst ns) (snd ns) w1
    | (Raise x, w1) => (Raise x, w1)
    | (OutOfFuel, w1) => (OutOfFuel, w1)
    end.
Proof.
  intros Hn. destruct n; try congruence; cbn [Sparky.run_from]; unfold bind at 1;
    destruct (Sparky.step agents _ st w) as [[ns|x|] w1]; reflexivity.
Qed.

(** From the nodes before the first improve round, with the converted
    files still the object that [spark_convert] stored, a run can only
    return through an improve round. *)
Lemma run_from_unimproved (agents : Sparky.Agents) :
  forall (fuel : nat) (n : Sparky.node) (st st' : Sparky.PySparkState)
         (w w' : Sparky.World),
    Sparky.run_from agents fuel n st w = (Ok st', w') ->
    n = Sparky.Nconvert \/ n = Sparky.Nimprove \/
    ((n = Sparky.Nevaluate \/ n = Sparky.Nexport) /\
     exists m, Sparky.converted_files st = Some (Sparky.AsModel m)) ->
    1 <= Sparky.executions Sparky.Nimprove (Sparky.new_events w w').
Proof.
  induction fuel as [|f IH]; intros n st st' w w' H Hn.
  - destruct n; cbn in H; try discriminate.
    destruct Hn as [Hn|[Hn|[[Hn|Hn] _]]]; discriminate.
  - assert (Hend : n <> Sparky.END)
      by (destruct Hn as [Hn|[Hn|[[Hn|Hn] _]]]; subst; discriminate).
    rewrite (run_from_step agents f n st w Hend) in H.
    destruct (Sparky.step agents n st w) as [[[n1 st1]|x|] w1] eqn:Es; try discriminate.
    cbn [fst snd] in H.
    destruct (step_extends agents n st w w1 _ Es) as [tr1 [Ht1 _]].
    destruct (run_from_extends agents f n1 st1 w1 w' _ H) as [tr2 Ht2].
    assert (Hnew : Sparky.new_events w w' = (Sparky.Enter n :: tr1) ++ tr2).
    { apply sparky_new_events_app. rewrite Ht2, Ht1, <- app_assoc. reflexivity. }
    assert (Hrest : Sparky.new_events w1 w' = tr2)
      by (apply sparky_new_events_app; exact Ht2).
    destruct Hn as [Hn|[Hn|[Hn [m Hm]]]].
    + subst n. rewrite Hnew, executions_app.
      enough (1 <= Sparky.executions Sparky.Nimprove tr2) by lia.
      rewrite <- Hrest. apply (IH n1 st1 st' w1 w' H).
      destruct (step_inv agents _ _ _ _ _ _ Es) as (upd & w0 & Hrun & -> & Hnext).
      cbn [Sparky.next_node ret] in Hnext. inversion Hnext; subst.
      right. right. split; [left; reflexivity|].
      cbn [Sparky.run_node] in Hrun. unfold Sparky.spark_convert, bind in Hrun.
      destruct (item (Sparky.input_code st) _) as [[input|?|] ?]; try discriminate.
      destruct (Sparky.invoke _ _ _) as [[out|?|] ?]; try discriminate.
      cbn [ret] in Hrun. inversion Hrun; subst.
      exists out. reflexivity.
    + subst n. rewrite Hnew, executions_app, executions_enter. cbn. lia.
    + destruct (step_inv agents _ _ _ _ _ _ Es) as (upd & w0 & Hrun & -> & Hnext).
      destruct Hn as [Hn|Hn]; subst n.
      * rewrite Hnew, executions_app.
        enough (1 <= Sparky.executions Sparky.Nimprove tr2) by lia.
        rewrite <- Hrest. apply (IH n1 _ st' w1 w' H).
        assert (Hupd : Sparky.converted_files upd = None).
        { cbn [Sparky.run_node] in Hrun. unfold Sparky.evaluate, bind in Hrun.
          destruct (item (Sparky.input_code st) _) as [[input|?|] ?]; try discriminate.
          destruct (item (Sparky.converted_files st) _) as [[conv|?|] ?]; try discriminate.
          destruct (Sparky.invoke _ _ _) as [[out|?|] ?]; try discriminate.
          cbn [ret] in Hrun. inversion Hrun; subst. reflexivity. }
        destruct (route_cases (Sparky.merge st upd)) as [[_ Hr]|[_ [Hr _]]];
          rewrite Hr in Hnext; cbn [ret] in Hnext; inversion Hnext; subst.
        -- right. right. split; [right; reflexivity|]. exists m.
           cbn [Sparky.merge Sparky.converted_files]. rewrite Hupd. exact Hm.
        -- right. left. reflexivity.
      * exfalso. cbn [Sparky.run_node] in Hrun.
        unfold Sparky.spark_export, bind in Hrun. rewrite Hm in Hrun.
        destruct (item (Sparky.out_path st) _) as [[out|?|] ?]; discriminate.
Qed.

(** X10.  No run of the graph returns without an improve round: from
    the initial state that [run_pyspark_conversion] builds, a run that
    returns a state has entered the improve node at least once.  A run
    that goes from its first evaluation to the export never returns. *)
Theorem pyspark_run_returns_only_after_improve :
  forall (agents : Sparky.Agents) (fuel : nat) (outpath f text : string)
         (target : pyfloat) (M : Z) (w : Sparky.World),
    let run := Sparky.pyspark_graph_invoke agents fuel
                 (Sparky.initial_state outpath f text target M) w in
    returned (fst run) = true ->
    1 <= Sparky.executions Sparky.Nimprove (Sparky.new_events w (snd run)).
Proof.
  intros agents fuel outpath f text target M w run Hr. subst run.
  unfold Sparky.pyspark_graph_invoke in *.
  destruct (Sparky.run_from agents fuel Sparky.Nconvert _ w) as [[st'|x|] w'] eqn:E;
    try discriminate.
  cbn [snd]. apply (run_from_unimproved agents fuel _ _ st' w w' E).
  left. reflexivity.
Qed.

Lemma pyspark_run_returns_only_after_improve_witness :
  returned (fst (Sparky.pyspark_graph_invoke (Demo.steady 50 (Demo.suggestions 3)) 10
                   (Sparky.initial_state "jobs" "job.sql" "select 1" (float_of_Z 90) 1)
                   Sparky.empty_world)) = true /\
  1 <= Sparky.executions Sparky.Nimprove
         (Sparky.new_events Sparky.empty_world
            (snd (Sparky.pyspark_graph_invoke (Demo.steady 50 (Demo.suggestions 3)) 10
                    (Sparky.initial_state "jobs" "job.sql" "select 1" (float_of_Z 90) 1)
                    Sparky.empty_world))).
Proof.
  split; [reflexivity|].
  apply (pyspark_run_returns_only_after_improve (Demo.steady 50 (Demo.suggestions 3)) 10
           "jobs" "job.sql" "select 1" (float_of_Z 90) 1 Sparky.empty_world).
  reflexivity.
Defined.

(** What one step does to the [iteration] key. *)
Lemma step_iteration (agents : Sparky.Agents) (n n1 : Sparky.node)
    (st st1 : Sparky.PySparkState) (w w1 : Sparky.World) (it : Z) :
  Sparky.step agents n st w = (Ok (n1, st1), w1) ->
  Sparky.iteration st = Some it ->
  Sparky.iteration st1
  = Some (match n with Sparky.Nimprove => it + 1 | _ => it end)%Z.
Proof.
  intros Es Hit.
  destruct (step_inv agents _ _ _ _ _ _ Es) as (upd & w0 & Hrun & -> & _).
  destruct n; cbn [Sparky.run_node] in Hrun.
  - destruct (spark_convert_trace agents st _ _ _ Hrun) as [_ (H1 & H2 & H3)].
    destruct (merge_keeps_budget st upd H1 H2 H3) as (_ & _ & Hi & _).
    rewrite Hi. exact Hit.
  - destruct (evaluate_trace agents st _ _ _ Hrun)
      as [tr (_ & _ & _ & e & _ & _ & H1 & H2 & H3)].
    destruct (merge_keeps_budget st upd H1 H2 H3) as (_ & _ & Hi & _).
    rewrite Hi. exact Hit.
  - destruct (spark_improve_trace agents st _ _ _ Hrun)
      as [tr (_ & _ & _ & it0 & H0 & H1 & _)].
    cbn [Sparky.merge Sparky.iteration]. rewrite H1. cbn [Sparky.or_else].
    congruence.
  - destruct (spark_export_trace st _ _ _ Hrun) as [_ ->]. exact Hit.
  - cbn [ret] in Hrun. inversion Hrun; subst. exact Hit.
Qed.

(** The improve rounds of a run, counted against the budget and against
    the [iteration] key of the state. *)
Lemma run_from_rounds (agents : Sparky.Agents) :
  forall (fuel : nat) (n : Sparky.node) (st : Sparky.PySparkState)
         (w w' : Sparky.World) (r : res Sparky.PySparkState) (it : Z),
    Sparky.run_from agents fuel n st w = (r, w') ->
    Sparky.iteration st = Some it ->
    Sparky.executions Sparky.Nimprove (Sparky.new_events w w')
    <= match n with
       | Sparky.Nconvert | Sparky.Nevaluate => Sparky.rounds_left st
       | Sparky.Nimprove => S (Nat.pred (Sparky.rounds_left st))
       | Sparky.Nexport | Sparky.END => 0
       end /\
    (forall st', r = Ok st' ->
       Sparky.iteration st'
       = Some (it + Z.of_nat (Sparky.executions Sparky.Nimprove
                                (Sparky.new_events w w')))%Z).
Proof.
  induction fuel as [|f IH]; intros n st w w' r it H Hit.
  - assert (Hnew : Sparky.new_events w w' = []).
    { destruct n; cbn in H; inversion H; subst;
        apply sparky_new_events_app; rewrite app_nil_r; reflexivity. }
    rewrite Hnew. cbn. split; [lia|].
    intros st' ->. destruct n; cbn in H; inversion H; subst.
    rewrite Z.add_0_r. exact Hit.
  - assert (Hend : n = Sparky.END \/ n <> Sparky.END)
      by (destruct n; (left; reflexivity) || (right; discriminate)).
    destruct Hend as [->|Hend].
    + cbn in H. inversion H; subst.
      rewrite (sparky_new_events_app w' w' []) by (rewrite app_nil_r; reflexivity).
      cbn. split; [lia|]. intros st' Hst. inversion Hst; subst.
      rewrite Z.add_0_r. exact Hit.
    + rewrite (run_from_step agents f n st w Hend) in H.
      destruct (Sparky.step agents n st w) as [[[n1 st1]|x|] w1] eqn:Es.
      * cbn [fst snd] in H.
        destruct (step_extends agents n st w w1 _ Es) as [tr1 [Ht1 Hq1]].
        destruct (run_from_extends agents f n1 st1 w1 w' _ H) as [tr2 Ht2].
        assert (Hnew : Sparky.new_events w w' = (Sparky.Enter n :: tr1) ++ tr2).
        { apply sparky_new_events_app. rewrite Ht2, Ht1, <- app_assoc. reflexivity. }
        assert (Hrest : Sparky.new_events w1 w' = tr2)
          by (apply sparky_new_events_app; exact Ht2).
        pose proof (step_iteration agents _ _ _ _ _ _ it Es Hit) as Hit1.
        destruct (IH n1 st1 w1 w' r _ H Hit1) as [Hb Hf].
        rewrite Hrest in Hb, Hf.
        rewrite Hnew, executions_app, executions_enter, Hq1.
        destruct n; try congruence; cbn [Sparky.is_enter].
        -- destruct (step_convert agents st w w1 _ Es) as [? (_ & _ & -> & Hrl & _)].
           rewrite Hrl in Hb. split; [lia|].
           intros st' Hst. rewrite (Hf st' Hst). f_equal.
        -- destruct (step_evaluate agents st w w1 _ Es)
             as [? (_ & _ & _ & Hrl & Hn1 & _)].
           rewrite Hrl in Hb. split.
           ++ destruct Hn1 as [->|[-> Hge]]; lia.
           ++ intros st' Hst. rewrite (Hf st' Hst). f_equal.
        -- destruct (step_improve agents st w w1 _ Es) as [? (_ & _ & -> & Hrl)].
           rewrite Hrl in Hb. split; [lia|].
           intros st' Hst. rewrite (Hf st' Hst). f_equal. lia.
        -- destruct (step_export agents st w w1 _ Es) as [? (_ & _ & ->)].
           split; [lia|].
           intros st' Hst. rewrite (Hf st' Hst). f_equal.
      * inversion H; subst.
        destruct (step_extends agents n st w w' _ Es) as [tr1 [Ht1 Hq1]].
        rewrite (sparky_new_events_app w w' _ Ht1), executions_enter, Hq1.
        split; [|discriminate]. destruct n; cbn; lia.
      * inversion H; subst.
        destruct (step_extends agents n st w w' _ Es) as [tr1 [Ht1 Hq1]].
        rewrite (sparky_new_events_app w w' _ Ht1), executions_enter, Hq1.
        split; [|discriminate]. destruct n; cbn; lia.
Qed.

(** X11.  The [iteration] key counts the improve rounds: a run makes
    at most [max_iters] of them, and the state it returns holds their
    number under [iteration]. *)
Theorem pyspark_iteration_counts_improve_rounds :
  forall (agents : Sparky.Agents) (fuel : nat) (outpath f text : string)
         (target : pyfloat) (M : Z) (w : Sparky.World),
    let run := Sparky.pyspark_graph_invoke agents fuel
                 (Sparky.initial_state outpath f text target M) w in
    let rounds := Sparky.executions Sparky.Nimprove (Sparky.new_events w (snd run)) in
    rounds <= Z.to_nat M /\
    (forall st', fst run = Ok st' -> Sparky.iteration st' = Some (Z.of_nat rounds)).
Proof.
  intros agents fuel outpath f text target M w run rounds. subst rounds run.
  unfold Sparky.pyspark_graph_invoke.
  destruct (Sparky.run_from agents fuel Sparky.Nconvert _ w) as [r w'] eqn:E.
  cbn [fst snd].
  destruct (run_from_rounds agents fuel _ _ w w' r 0%Z E eq_refl) as [Hb Hf].
  split.
  - unfold Sparky.rounds_left in Hb. cbn in Hb. rewrite Z.sub_0_r in Hb. exact Hb.
  - intros st' Hst. rewrite (Hf st' Hst). reflexivity.
Qed.

(** ** The improve round of the PySpark graph *)

Lemma improve_loop_chained (agents : Sparky.Agents) (input : dict string)
    (imps : list string) (b : nat) :
  forall (starts : list nat) (conv : Sparky.converted) (acc : option Sparky.OutFiles)
         (w : Sparky.World),
    Round.chained input conv
      (Sparky.new_events w
         (snd (Sparky.improve_loop agents input imps b starts conv acc w))).
Proof.
  induction starts as [|i rest IH]; intros conv acc w.
  - cbn. rewrite (sparky_new_events_app w w []) by (rewrite app_nil_r; reflexivity).
    exact I.
  - cbn [Sparky.improve_loop]. unfold bind. unfold Sparky.invoke at 1.
    set (batch := slice imps i (i + b)).
    destruct (Sparky.spark_improvement_agent agents (Sparky.clock w) input conv batch)
      as [o|x] eqn:Ea.
    + set (w1 := {| Sparky.clock := S (Sparky.clock w);
                    Sparky.trace :=
                      Sparky.trace w ++
                      [Sparky.InvokeImprovement input conv batch (Answer o)] |}).
      specialize (IH (Sparky.AsList (Sparky.files o)) (Some o) w1).
      destruct (Sparky.improve_loop agents input imps b rest _ (Some o) w1)
        as [r w'] eqn:El.
      cbn [snd] in IH |- *.
      destruct (improve_loop_trace agents input imps b rest _ _ w1 w' r El)
        as [tr [Ht _]].
      rewrite (sparky_new_events_app w1 w' tr Ht) in IH.
      rewrite (sparky_new_events_app w w'
                 (Sparky.InvokeImprovement input conv batch (Answer o) :: tr)).
      * cbn. repeat split. exact IH.
      * rewrite Ht. unfold w1. cbn [Sparky.trace]. rewrite <- app_assoc. reflexivity.
    + cbn [snd].
      rewrite (sparky_new_events_app w _
                 [Sparky.InvokeImprovement input conv batch (Failure x)])
        by reflexivity.
      cbn. repeat split.
Qed.

(** X12.  The batches of one improve round build on each other: every
    call of [spark_improve] is made for the state's input code, the
    first is sent the converted files of the state, and each later one
    is sent the files that the call before it returned; after a failed
    call no further call is made. *)
Theorem spark_improve_calls_are_chained :
  forall (agents : Sparky.Agents) (st : Sparky.PySparkState) (w : Sparky.World)
         (input : dict string) (conv : Sparky.converted),
    Sparky.input_code st = Some input ->
    Sparky.converted_files st = Some conv ->
    Round.chained input conv
      (Sparky.new_events w (snd (Sparky.spark_improve agents st w))).
Proof.
  intros agents st w input conv Hi Hc.
  unfold Sparky.spark_improve, Sparky.spark_improve_with.
  unfold bind at 1. rewrite Hi. cbn [item ret].
  unfold bind at 1. rewrite Hc. cbn [item ret].
  unfold bind at 1.
  destruct (Sparky.improvements st) as [imps|]; cbn [item ret raise].
  2:{ cbn [snd]. rewrite (sparky_new_events_app w w []) by (rewrite app_nil_r; reflexivity).
      exact I. }
  unfold bind at 1.
  pose proof (improve_loop_chained agents input imps 7
                (py_range 0 (List.length imps) 7) conv None w) as Hch.
  destruct (Sparky.improve_loop agents input imps 7 _ conv None w) as [[[r|]|x|] w'];
    cbn [snd] in Hch; cbn [raise snd]; try exact Hch.
  unfold bind. destruct (Sparky.iteration st); cbn [item ret raise snd]; exact Hch.
Qed.

Lemma spark_improve_calls_are_chained_witness :
  Round.chained [("job.sql", "select 1")] (Sparky.AsModel Demo.one_file)
    (Sparky.new_events Sparky.empty_world
       (snd (Sparky.spark_improve (Demo.steady 50 (Demo.suggestions 8))
               (Demo.at_improve (Demo.suggestions 8)) Sparky.empty_world))).
Proof.
  apply (spark_improve_calls_are_chained (Demo.steady 50 (Demo.suggestions 8))
           (Demo.at_improve (Demo.suggestions 8)) Sparky.empty_world);
    reflexivity.
Defined.
